(** * The bound-probability task of the hypervelocity star catalogue

    A shallow embedding of [tasks/boundprobability.py] and the properties
    of it that the specification states.

    Conventions of the embedding.
    - Python and numpy floats are modelled by exact rationals ([Q]); rounding
      is outside the model.  A numpy division by zero raises nothing: the
      program goes on with [inf] or [nan], which the rationals do not
      hold.  The modelled run ends there with [NonFinite], which is not an
      exception of the program but the mark of a run that has left the
      model; what the program does after that point is not described.  A
      Python float division by zero raises [ZeroDivisionError], as in the
      source.
    - Exceptions are values of [PyError]; fallible code returns [result].
    - The global numpy random generator is explicit state ([Rnd]); the
      catalogue, its log and its store are explicit state ([Eng]) with a
      trace of the calls made on them.
    - Everything the source imports (math, numpy, scipy, astropy, galpy,
      astrocats and the sibling [utils] module) is an interface: a class
      whose fields are the imported functions. *)

From Stdlib Require Import QArith ZArith String Ascii List Lia Lqa.
From Stdlib Require Import NsatzTactic.
From stdpp Require Import base list strings pretty.

Local Open Scope Q_scope.

(** ** Exceptions and fallible results *)

Inductive PyError : Type :=
  | ZeroDivisionError
  | ValueError
  | KeyError
  | IndexError
  | UnboundLocalError
  | NameError
  | OSError
  | NonFinite.

Inductive result (A : Type) : Type :=
  | Ok (a : A)
  | Raise (e : PyError).
Arguments Ok {A} a.
Arguments Raise {A} e.

#[export] Instance result_ret : MRet result := fun A a => Ok a.
#[export] Instance result_bind : MBind result := fun A B f m =>
  match m with
  | Ok a => f a
  | Raise e => Raise e
  end.
#[export] Instance result_fmap : FMap result := fun A B f m =>
  match m with
  | Ok a => Ok (f a)
  | Raise e => Raise e
  end.

(** [o] or, when the key or index is absent, the exception [e]. *)
Definition or_raise {A} (e : PyError) (o : option A) : result A :=
  match o with
  | Some a => Ok a
  | None => Raise e
  end.

(** ** Integers as numpy has them *)

(** A 64-bit signed integer operation wraps around silently. *)
Definition wrap64 (z : Z) : Z := ((z + 2 ^ 63) mod 2 ^ 64 - 2 ^ 63)%Z.

(** [np.prod] of an [int64] array: the running product wraps at each step. *)
Definition np_prod (l : list Z) : Z :=
  fold_left (fun acc x => wrap64 (acc * x)) l 1%Z.

(** Python's [i % n] on non-negative integers. *)
Definition py_mod (i n : nat) : result nat :=
  if Nat.eqb n 0 then Raise ZeroDivisionError else Ok (i mod n)%nat.

(** [ord(c)]; identifiers are strings of characters with codes below
    256. *)
Definition ord (c : ascii) : Z := Z.of_N (N_of_ascii c).

(** ** [craft_seed] (lines 70-74) *)

Definition craft_seed (SEED : string) : result Z :=
  let nSEED := String.length SEED in
  let indSEED := seq 0 (2 * (nSEED + 3)) in
  codes ← mapM (fun i => j ← py_mod i nSEED;
                        c ← or_raise IndexError (String.get j SEED);
                        Ok (ord c)) indSEED;
  Ok (np_prod codes mod 4294967296)%Z.

(** The product the specification describes, over the integers: the
    character codes of the name taken cyclically over [2 * (len + 3)]
    indices. *)
Definition cyclic_code (NAME : string) (i : nat) : Z :=
  match String.get (i mod String.length NAME) NAME with
  | Some c => ord c
  | None => 1%Z
  end.

Definition cyclic_product (NAME : string) : Z :=
  fold_right Z.mul 1%Z
    (map (cyclic_code NAME) (seq 0 (2 * (String.length NAME + 3)))).

(** ** Floats as rationals *)

Definition Qlt_bool (x y : Q) : bool := negb (Qle_bool y x).

(** Python's [max(a, b)]: the first of the largest. *)
Definition py_max (a b : Q) : Q := if Qlt_bool a b then b else a.

(** Python float division [x / y]. *)
Definition py_div (x y : Q) : result Q :=
  if Qeq_bool y 0 then Raise ZeroDivisionError else Ok (x / y).

(** numpy float division [x / y]: no exception, but a zero divisor gives
    [inf] or [nan] (with a warning), which the rationals do not hold; the
    program goes on with that value, the modelled run ends with
    [NonFinite]. *)
Definition np_div (x y : Q) : result Q :=
  if Qeq_bool y 0 then Raise NonFinite else Ok (x / y).

(** [np.argmin]: the first index of the smallest element. *)
Fixpoint argmin_from (best_i : nat) (best : Q) (i : nat) (l : list Q) : nat :=
  match l with
  | [] => best_i
  | x :: l' =>
      if Qlt_bool x best then argmin_from i x (S i) l'
      else argmin_from best_i best (S i) l'
  end.

Definition np_argmin (l : list Q) : result nat :=
  match l with
  | [] => Raise ValueError
  | x :: l' => Ok (argmin_from 0 x 1 l')
  end.

(** An elementwise numpy operation on two arrays, which must have the same
    length.  (numpy would broadcast an array of length one; the model
    raises there too.) *)
Definition np_zip_with {A B C} (f : A → B → C) (xs : list A) (ys : list B)
  : result (list C) :=
  if Nat.eqb (length xs) (length ys) then Ok (zip_with f xs ys)
  else Raise ValueError.

(** A [for] loop whose body may raise. *)
Fixpoint for_each {S A} (body : S → A → result S) (s : S) (l : list A)
  : result S :=
  match l with
  | [] => Ok s
  | a :: l' => s' ← body s a; for_each body s' l'
  end.

(** ** Data model *)

(** A correlation entry: the paired quantity and the coefficient. *)
Record Correlation : Type := {
  corr_quantity : string;
  corr_value : string
}.

(** A measurement entry: a dictionary whose values are stored as text; a
    field is [None] when the key is absent. *)
Record Quantity : Type := {
  value : option string;
  e_value : option string;
  e_lower_value : option string;
  e_upper_value : option string;
  correlations : option (list Correlation);
  derived : option bool
}.

(** The same measurement with its derived flag replaced. *)
Definition with_derived (d : option bool) (q : Quantity) : Quantity :=
  {| value := value q; e_value := e_value q;
     e_lower_value := e_lower_value q; e_upper_value := e_upper_value q;
     correlations := correlations q; derived := d |}.

(** The keys of a catalogue entry that the task reads or writes. *)
Inductive FASTSTARS : Type :=
  | RA
  | DEC
  | LUM_DIST
  | PARALLAX
  | PROPER_MOTION_RA
  | PROPER_MOTION_DEC
  | VELOCITY
  | DISTANCE_PRIOR_LENGTH_SCALE
  | BOUND_PROBABILITY.

(** A catalogue entry: for each key the list of measurements, [None] when
    the key is absent. *)
Definition Entry : Type := FASTSTARS → option (list Quantity).

(** [key in d] for an optional field. *)
Definition has {A} (o : option A) : bool :=
  match o with
  | Some _ => true
  | None => false
  end.

(** Sky angles in radians, as astropy gives them. *)
Record Angles : Type := {
  a_ra : Q;
  a_dec : Q;
  a_l : Q;
  a_b : Q
}.

(** A row of the kinematic sample matrix (columns 0 to 3) and a row of the
    solar motion sample matrix (columns 0 to 4). *)
Record row4 : Type := Row4 { c0 : Q; c1 : Q; c2 : Q; c3 : Q }.
Record row5 : Type := Row5 { s0 : Q; s1 : Q; s2 : Q; s3 : Q; s4 : Q }.

Record vec3 : Type := V3 { x0 : Q; x1 : Q; x2 : Q }.
Record mat3 : Type := M3 { r0 : vec3; r1 : vec3; r2 : vec3 }.

(** ** The imported libraries *)

(** Pure functions of the Python builtins, math, numpy, scipy, astropy and
    galpy, and the one astrocats constant the selector tests. *)
Class PyLibs : Type := {
  (** [float(s)]; [None] when it raises [ValueError] *)
  float : string → option Q;
  (** [str(x)] of a float *)
  str : Q → string;
  pi : Q;
  cos : Q → Q;
  sin : Q → Q;
  np_sqrt : Q → Q;
  np_power : Q → Q → Q;
  np_mean : list Q → Q;
  np_std : list Q → Q;
  (** [scipy.stats.beta.ppf(q, a, b)] *)
  beta_ppf : Q → Q → Q → Q;
  (** [vesc(MWPotential2014, r * un.kpc)] *)
  galpy_vesc : Q → Q;
  (** [SkyCoord(s, unit=(hourangle, deg), frame='icrs')]; [None] when it
      raises *)
  skycoord : string → option Angles;
  (** the value of the test [QUANTITY.DERIVED == True] *)
  QUANTITY_DERIVED_eq_True : bool
}.

(** numpy's global random generator. *)
Class Random : Type := {
  rng_state : Type;
  (** the state [np.random.seed(s)] installs *)
  np_random_seed : Z → rng_state;
  (** [np.random.choice(range(n), size)]: the indices drawn and the state
      left behind *)
  np_random_choice : nat → nat → rng_state → list nat * rng_state
}.

(** The sibling module [utils]: the two samplers, which use the global
    random generator and may raise. *)
Class Utils `{Random} : Type := {
  kinematic_sampler :
    string → list Q → list Q → list (list Q) → Q → Q →
    rng_state → result (list row4) * rng_state;
  solarmotion_sampler :
    string → nat → rng_state → result (list row5) * rng_state
}.

(** The keyword arguments of one [add_quantity] call; [None] for an
    argument that is not passed. *)
Record QuantityCall : Type := {
  q_value : string;
  q_e_value : option string;
  q_e_lower_value : option string;
  q_e_upper_value : option string;
  q_u_value : option string;
  q_upperlimit : option bool;
  q_lowerlimit : option bool;
  q_source : string;
  q_derived : bool;
  q_kind : list string
}.

(** The catalogue (astrocats) and the task repository it points to. *)
Class Catalog : Type := {
  catalog : Type;
  (** [list(catalog.entries.keys())] *)
  entries_keys : catalog → list string;
  (** [catalog.add_entry(oname)]; [None] when it raises *)
  add_entry : string → catalog → option string * catalog;
  (** [catalog.entries[name]]; [None] when the name is not a key *)
  entries : catalog → string → option Entry;
  (** [catalog.entries[name].add_self_source()] *)
  add_self_source : string → catalog → string * catalog;
  (** [catalog.entries[name].add_quantity(key, ...)] *)
  add_quantity : string → FASTSTARS → QuantityCall → catalog → catalog;
  journal_entries : catalog → catalog;
  (** [np.genfromtxt] of [spherical_powerlaw.dat] in the task repository:
      the rows of the table *)
  genfromtxt : catalog → result (list (list Q))
}.

(** ** Module constants (lines 17-38) *)

Definition epoch : Q := 2000.
Definition k : Q := 4.74057.
Definition errorifmissing : Q := 0.5.
Definition confidenceintervalcoverage : Q := 0.6827.

Definition vec3_dot (u v : vec3) : Q :=
  x0 u * x0 v + x1 u * x1 v + x2 u * x2 v.

Definition mat3_vec (M : mat3) (v : vec3) : vec3 :=
  V3 (vec3_dot (r0 M) v) (vec3_dot (r1 M) v) (vec3_dot (r2 M) v).

Definition mat3_transpose (M : mat3) : mat3 :=
  M3 (V3 (x0 (r0 M)) (x0 (r1 M)) (x0 (r2 M)))
     (V3 (x1 (r0 M)) (x1 (r1 M)) (x1 (r2 M)))
     (V3 (x2 (r0 M)) (x2 (r1 M)) (x2 (r2 M))).

Definition mat3_mul (M N : mat3) : mat3 :=
  let Nt := mat3_transpose N in
  M3 (mat3_vec Nt (r0 M)) (mat3_vec Nt (r1 M)) (mat3_vec Nt (r2 M)).

Definition vec3_add (u v : vec3) : vec3 :=
  V3 (x0 u + x0 v) (x1 u + x1 v) (x2 u + x2 v).

Section Definitions.
Context {libs : PyLibs} {rnd : Random} {utils : Utils} {cat : Catalog}.

(** The angles of the galactic pole and centre for the epoch ([cube],
    [dec_ngp], [ra_ngp]); unbound for any other epoch. *)
Definition frame_angles : option (Q * Q * Q) :=
  if Qeq_bool epoch 2000 then
    Some (122.932 / 180 * pi, 27.12825 / 180 * pi, 192.85948 / 180 * pi)
  else if Qeq_bool epoch 1950 then
    Some (123 / 180 * pi, 27.4 / 180 * pi, 192.25 / 180 * pi)
  else None.

Definition T_1 (cube : Q) : mat3 :=
  M3 (V3 (cos cube) (sin cube) 0) (V3 (sin cube) (- cos cube) 0) (V3 0 0 1).
Definition T_2 (dec_ngp : Q) : mat3 :=
  M3 (V3 (- sin dec_ngp) 0 (cos dec_ngp)) (V3 0 (-1) 0)
     (V3 (cos dec_ngp) 0 (sin dec_ngp)).
Definition T_3 (ra_ngp : Q) : mat3 :=
  M3 (V3 (cos ra_ngp) (sin ra_ngp) 0) (V3 (sin ra_ngp) (- cos ra_ngp) 0)
     (V3 0 0 1).

Definition T : result mat3 :=
  '(cube, dec_ngp, ra_ngp) ← or_raise NameError frame_angles;
  Ok (mat3_mul (mat3_mul (T_1 cube) (T_2 dec_ngp)) (T_3 ra_ngp)).

Definition to_float (s : string) : result Q := or_raise ValueError (float s).

(** ** [best_parameter] (lines 40-51) *)

Definition best_parameter (PARAMETER : list Quantity) : result (nat * Q) :=
  let nPARAMETER := length PARAMETER in
  let errPARAMETER := replicate nPARAMETER 9999.9 in
  errPARAMETER ← for_each (fun errPARAMETER i =>
      if QUANTITY_DERIVED_eq_True then Ok errPARAMETER
      else
        q ← or_raise IndexError (PARAMETER !! i);
        match e_value q with
        | Some e =>
            e ← to_float e; Ok (<[i:=e]> errPARAMETER)
        | None =>
            match e_lower_value q, e_upper_value q with
            | Some lo, Some up =>
                lo ← to_float lo; up ← to_float up;
                Ok (<[i:=py_max lo up]> errPARAMETER)
            | _, _ => Ok errPARAMETER
            end
        end) errPARAMETER (seq 0 nPARAMETER);
  BESTI ← np_argmin errPARAMETER;
  e ← or_raise IndexError (errPARAMETER !! BESTI);
  Ok (BESTI, e).

(** ** Code that uses the global random generator *)

Definition Rnd (A : Type) : Type := rng_state → result A * rng_state.

#[export] Instance Rnd_ret : MRet Rnd := fun A a st => (Ok a, st).
#[export] Instance Rnd_bind : MBind Rnd := fun A B f m st =>
  match m st with
  | (Ok a, st') => f a st'
  | (Raise e, st') => (Raise e, st')
  end.

(** A computation that does not touch the generator. *)
Definition pure {A} (r : result A) : Rnd A := fun st => (r, st).

(** [np.random.seed(seed=s)]: the seed must lie in [0, 2^32 - 1]. *)
Definition random_seed (s : Z) : Rnd unit := fun st =>
  if ((0 <=? s) && (s <? 2 ^ 32))%Z then (Ok (), np_random_seed s)
  else (Raise ValueError, st).

(** [np.random.choice(range(n), size)]: an empty population can only be
    sampled zero times. *)
Definition random_choice (n size : nat) : Rnd (list nat) := fun st =>
  if Nat.eqb n 0 && negb (Nat.eqb size 0) then (Raise ValueError, st)
  else let '(l, st') := np_random_choice n size st in (Ok l, st').

(** [a[idx]] for an array of indices. *)
Definition take_indices (a : list Q) (idx : list nat) : result (list Q) :=
  mapM (fun i => or_raise IndexError (a !! i)) idx.

(** [chain[:,j]] of the array [np.genfromtxt] makes of the rows of the
    file.  A file without rows, or with one row only, is read as a
    one-dimensional array, on which the two-index slice raises
    [IndexError]. *)
Definition column (j : nat) (chain : list (list Q)) : result (list Q) :=
  match chain with
  | [] | [_] => Raise IndexError
  | _ => mapM (fun row : list Q => or_raise IndexError (row !! j)) chain
  end.

(** ** [vescsolar_sampler] (lines 67-77), closed over the two chain
    columns *)

Definition vescsolar_sampler (VESCSOLAR ALPHA : list Q)
    (NAME : string) (NSAMP : nat) : Rnd (list Q * list Q) :=
  let seed := NAME in
  s ← pure (craft_seed seed);
  _ ← random_seed s;
  choice_chain ← random_choice (length VESCSOLAR) NSAMP;
  vesc ← pure (take_indices VESCSOLAR choice_chain);
  alpha ← pure (take_indices ALPHA choice_chain);
  mret (vesc, alpha).

(** ** The kinematic inputs of one star (lines 109-206) *)

(** [l[i]] and [d[key]]. *)
Definition item {A} (l : list A) (i : nat) : result A :=
  or_raise IndexError (l !! i).
Definition field {A} (o : option A) : result A := or_raise KeyError o.

(** [key in l] for a list [l] of measurement dictionaries: the key is a
    string and equals none of the dictionaries. *)
Definition key_in_list (l : list Quantity) : bool :=
  existsb (fun _ => false) l.

(** [kine_corr[i,j] = kine_corr[j,i] = v]. *)
Definition set_corr (i j : nat) (v : Q) (corr : list (list Q))
  : list (list Q) :=
  alter (fun row => <[j:=v]> row) i corr.
Definition set_sym (i j : nat) (v : Q) (corr : list (list Q))
  : list (list Q) :=
  set_corr j i v (set_corr i j v corr).

Record KineInputs : Type := {
  kine_values : list Q;
  kine_errors : list Q;
  kine_corr : list (list Q);
  kine_L : Q;
  kine_k : Q;
  haveparallax : bool;
  havepropermotions : bool;
  havevelocities : bool
}.

(** Lines 117-119. *)
Definition prior_length_scale (e : Entry) (kine_L : Q) : result Q :=
  match e DISTANCE_PRIOR_LENGTH_SCALE with
  | Some scale =>
      q ← item scale 0; v ← field (value q); to_float v
  | None => Ok kine_L
  end.

(** Lines 126-142. *)
Definition parallax_inputs (e : Entry)
    (kine_values kine_errors : list Q) (kine_corr : list (list Q))
  : result (bool * list Q * list Q * list (list Q)) :=
  match e PARALLAX with
  | Some parallax =>
      q ← item parallax 0; v ← field (value q); v ← to_float v;
      let kine_values := <[0%nat:=v]> kine_values in
      q ← item parallax 0; ev ← field (e_value q); ev ← to_float ev;
      let kine_errors := <[0%nat:=ev]> kine_errors in
      kine_corr ←
        (if key_in_list parallax then
           q ← item parallax 0; parallax_corr ← field (correlations q);
           let n_corr := length parallax_corr in
           for_each (fun kine_corr i =>
               c ← item parallax_corr i;
               kine_corr ←
                 (if String.eqb (corr_quantity c) "propermotionra" then
                    c ← item parallax_corr i; v ← to_float (corr_value c);
                    Ok (set_sym 0 1 v kine_corr)
                  else Ok kine_corr);
               c ← item parallax_corr i;
               if String.eqb (corr_quantity c) "propermotiondec" then
                 c ← item parallax_corr i; v ← to_float (corr_value c);
                 Ok (set_sym 0 2 v kine_corr)
               else Ok kine_corr) kine_corr (seq 0 n_corr)
         else Ok kine_corr);
      Ok (true, kine_values, kine_errors, kine_corr)
  | None => Ok (false, kine_values, kine_errors, kine_corr)
  end.

(** Lines 144-170. *)
Definition propermotion_inputs (e : Entry)
    (kine_values kine_errors : list Q) (kine_corr : list (list Q))
  : result (bool * list Q * list Q * list (list Q)) :=
  match e PROPER_MOTION_RA, e PROPER_MOTION_DEC with
  | Some pmra, Some pmdec =>
      best ← best_parameter pmra;
      let best_propermotion_i := best.1 in
      qra ← item pmra best_propermotion_i;
      v ← field (value qra); v1 ← to_float v;
      let kine_values := <[1%nat:=v1]> kine_values in
      qdec ← item pmdec best_propermotion_i;
      v ← field (value qdec); v2 ← to_float v;
      let kine_values := <[2%nat:=v2]> kine_values in
      kine_errors ←
        match e_value qra, e_value qdec with
        | Some era, Some edec =>
            era ← to_float era;
            let kine_errors := <[1%nat:=era]> kine_errors in
            edec ← to_float edec;
            Ok (<[2%nat:=edec]> kine_errors)
        | _, _ =>
            Ok (<[2%nat:=errorifmissing * v2]>
                  (<[1%nat:=errorifmissing * v1]> kine_errors))
        end;
      kine_corr ←
        match correlations qra, correlations qdec with
        | Some propermotionra_corr, Some _ =>
            let n_corr := length propermotionra_corr in
            for_each (fun kine_corr i =>
                c ← item propermotionra_corr i;
                if String.eqb (corr_quantity c) "propermotiondec" then
                  c ← item propermotionra_corr i; v ← to_float (corr_value c);
                  Ok (set_sym 1 2 v kine_corr)
                else Ok kine_corr) kine_corr (seq 0 n_corr)
        | _, _ => Ok (set_sym 0 2 0 (set_sym 0 1 0 kine_corr))
        end;
      Ok (true, kine_values, kine_errors, kine_corr)
  | _, _ => Ok (false, kine_values, kine_errors, kine_corr)
  end.

(** Lines 172-187. *)
Definition velocity_inputs (e : Entry) (kine_values kine_errors : list Q)
  : result (bool * list Q * list Q) :=
  match e VELOCITY with
  | Some velocity =>
      best ← best_parameter velocity;
      let '(best_velocity_i, best_velocity_err) := best in
      q ← item velocity best_velocity_i; v ← field (value q); v3 ← to_float v;
      let kine_values := <[3%nat:=v3]> kine_values in
      let kine_errors :=
        if Qlt_bool best_velocity_err 9999
        then <[3%nat:=best_velocity_err]> kine_errors
        else <[3%nat:=errorifmissing * v3]> kine_errors in
      Ok (true, kine_values, kine_errors)
  | None => Ok (false, kine_values, kine_errors)
  end.

(** Lines 189-206: the photometric distance overrides the shape [(L, k)]
    of the distance prior.  The selector's error is a numpy float, so the
    divisions it enters are numpy's; the substituted error is a Python
    float, and so are its divisions. *)
Definition lumdist_prior (e : Entry) (kine_L kine_k : Q) : result (Q * Q) :=
  match e LUM_DIST with
  | Some lumdist =>
      best ← best_parameter lumdist;
      let '(best_lumdist_i, best_lumdist_err) := best in
      q ← item lumdist best_lumdist_i; v ← field (value q);
      kine_mu ← to_float v;
      let '(kine_sigma, div) :=
        if Qlt_bool best_lumdist_err 9999
        then (best_lumdist_err, np_div)
        else (errorifmissing * kine_mu, py_div) in
      kine_L ← div (kine_sigma ^ 2) kine_mu;
      kine_k ← div kine_mu kine_L;
      Ok (kine_L, kine_k)
  | None => Ok (kine_L, kine_k)
  end.

Definition kinematic_inputs (e : Entry) : result KineInputs :=
  let kine_n := 4%nat in
  let kine_values := replicate kine_n 0 in
  let kine_errors := replicate kine_n 9999.9 in
  let kine_corr :=
    imap (fun i _ => <[i:=1]> (replicate kine_n 0)) (replicate kine_n ()) in
  let kine_L := 1.35 in
  let kine_k := 3 in
  kine_L ← prior_length_scale e kine_L;
  '(haveparallax, kine_values, kine_errors, kine_corr) ←
    parallax_inputs e kine_values kine_errors kine_corr;
  '(havepropermotions, kine_values, kine_errors, kine_corr) ←
    propermotion_inputs e kine_values kine_errors kine_corr;
  '(havevelocities, kine_values, kine_errors) ←
    velocity_inputs e kine_values kine_errors;
  '(kine_L, kine_k) ← lumdist_prior e kine_L kine_k;
  Ok {| kine_values := kine_values; kine_errors := kine_errors;
        kine_corr := kine_corr; kine_L := kine_L; kine_k := kine_k;
        haveparallax := haveparallax;
        havepropermotions := havepropermotions;
        havevelocities := havevelocities |}.

(** ** The samples of one star (lines 98-107 and 208-250) *)

(** Lines 98-107: the text of the first right ascension and declination,
    concatenated and handed to astropy. *)
Definition sky_angles (e : Entry) : result Angles :=
  ra ← field (e RA); q ← item ra 0; ra ← field (value q);
  dec ← field (e DEC); q ← item dec 0; dec ← field (value q);
  let Mradec := (ra ++ dec)%string in
  or_raise ValueError (skycoord Mradec).

(** Lines 211-212: proper motions become transverse velocities. *)
Definition scale_propermotions (r : row4) : row4 :=
  Row4 (c0 r) (c1 r * (k * c0 r)) (c2 r * (k * c0 r)) (c3 r).

(** Line 224. *)
Definition frame_A (a : Angles) : mat3 :=
  let cosdec := cos (a_dec a) in
  let sindec := sin (a_dec a) in
  let cosra := cos (a_ra a) in
  let sinra := sin (a_ra a) in
  M3 (V3 (cosra * cosdec) (- sinra) (- cosra * sindec))
     (V3 (sinra * cosdec) cosra (- sinra * sindec))
     (V3 sindec 0 cosdec).

(** Lines 228-229: [kine_vhel] is a view of columns 2 to 4 of the solar
    samples, so adding the disc speed to its column 1 changes column 3 of
    the solar samples themselves. *)
Definition add_vdisk (s : row5) : row5 :=
  Row5 (s0 s) (s1 s) (s2 s) (s3 s + s1 s) (s4 s).
Definition vhel_view (s : row5) : vec3 := V3 (s2 s) (s3 s) (s4 s).

(** Lines 232-239: without proper motions, or without a radial velocity,
    the star is given exactly the solar reflex. *)
Definition reflex_substitution (havepropermotions havevelocities : bool)
    (kine_D : list vec3) (kine_samples_corrected : list row4)
  : result (list row4) :=
  kine_samples_corrected ←
    (if Bool.eqb havepropermotions false then
       c ← np_zip_with (fun r d => Row4 (c0 r) (-1 * x1 d) (c2 r) (c3 r))
             kine_samples_corrected kine_D;
       np_zip_with (fun r d => Row4 (c0 r) (c1 r) (-1 * x2 d) (c3 r))
         c kine_D
     else Ok kine_samples_corrected);
  if Bool.eqb havevelocities false then
    np_zip_with (fun r d => Row4 (c0 r) (c1 r) (c2 r) (-1 * x0 d))
      kine_samples_corrected kine_D
  else Ok kine_samples_corrected.

(** Line 245: the galactocentric radius of one sample, by the law of
    cosines. *)
Definition galrad_of (cosb cosl : Q) (s : row5) (r : row4) : Q :=
  np_sqrt (s0 s ^ 2 + c0 r ^ 2 - 2 * s0 s * c0 r * cosb * cosl).

(** The escape-velocity policy after lines 59-79: under [williams2017] the
    two columns of the chain are bound, under an unrecognised method
    nothing is. *)
Inductive Policy : Type :=
  | Galpy
  | Williams2017 (VESCSOLAR ALPHA : list Q)
  | Unresolved.

(** Lines 246-250; [None] when [kine_vesc] is left unbound. *)
Definition escape_velocity (policy : Policy) (name : string)
    (kine_samples_n : nat) (kine_galrad : list Q)
    (kine_samples_solar : list row5) : Rnd (option (list Q)) :=
  match policy with
  | Galpy =>
      v ← pure (np_zip_with (fun r s => galpy_vesc r * s1 s)
                  kine_galrad kine_samples_solar);
      mret (Some v)
  | Williams2017 VESCSOLAR ALPHA =>
      '(kine_vesc_solar, kine_alpha) ←
        vescsolar_sampler VESCSOLAR ALPHA name kine_samples_n;
      ratio ← pure (l ← np_zip_with (fun r s => np_div r (s0 s))
                          kine_galrad kine_samples_solar;
                    mapM id l);
      pw ← pure (np_zip_with (fun r a => np_power r (- a / 2))
                   ratio kine_alpha);
      v ← pure (np_zip_with Qmult kine_vesc_solar pw);
      mret (Some v)
  | Unresolved => mret None
  end.

Record StarSamples : Type := {
  inputs : KineInputs;
  kine_samples_corrected : list row4;
  kine_samples_n : nat;
  kine_samples_solar : list row5;
  kine_D : list vec3;
  kine_vgrf : list Q;
  kine_galrad : list Q;
  kine_vesc : option (list Q)
}.

Definition star_samples (Tm : mat3) (policy : Policy) (name : string)
    (e : Entry) : Rnd StarSamples :=
  a ← pure (sky_angles e);
  inp ← pure (kinematic_inputs e);
  kine_samples ← kinematic_sampler name (kine_values inp) (kine_errors inp)
                   (kine_corr inp) (kine_L inp) (kine_k inp);
  let corrected := scale_propermotions <$> kine_samples in
  let n := length kine_samples in
  let cosl := cos (a_l a) in
  let cosb := cos (a_b a) in
  let B := mat3_mul Tm (frame_A a) in
  solar ← solarmotion_sampler name n;
  let solar := add_vdisk <$> solar in
  let kine_vhel := vhel_view <$> solar in
  let D := mat3_vec (mat3_transpose B) <$> kine_vhel in
  corrected ← pure (reflex_substitution (havepropermotions inp)
                      (havevelocities inp) D corrected);
  kine_samples_vhel ←
    pure (np_zip_with vec3_add kine_vhel
            ((fun r => mat3_vec B (V3 (c3 r) (c1 r) (c2 r))) <$> corrected));
  let vgrf :=
    (fun v => np_sqrt (x0 v ^ 2 + x1 v ^ 2 + x2 v ^ 2)) <$> kine_samples_vhel in
  galrad ← pure (np_zip_with (galrad_of cosb cosl) solar corrected);
  vesc ← escape_velocity policy name n galrad solar;
  mret {| inputs := inp; kine_samples_corrected := corrected;
          kine_samples_n := n; kine_samples_solar := solar; kine_D := D;
          kine_vgrf := vgrf; kine_galrad := galrad; kine_vesc := vesc |}.

(** ** The bound probability (lines 263-267) *)

(** Line 264: the number of samples whose escape velocity exceeds the
    total velocity. *)
Definition count_bound (kine_vesc kine_vgrf : list Q) : result nat :=
  bound ← np_zip_with (fun vesc vgrf => Qlt_bool vgrf vesc) kine_vesc kine_vgrf;
  Ok (length (List.filter id bound)).

(** Lines 265-267: lower bound, median and upper bound. *)
Definition kine_bound_percentiles (kine_bound_n kine_samples_n : nat)
  : Q * Q * Q :=
  let kine_betaa := inject_Z (Z.of_nat kine_bound_n) + 0.5 in
  let kine_betab :=
    inject_Z (Z.of_nat kine_samples_n - Z.of_nat kine_bound_n) + 0.5 in
  (beta_ppf (confidenceintervalcoverage / 2) kine_betaa kine_betab,
   beta_ppf 0.5 kine_betaa kine_betab,
   beta_ppf (1 - confidenceintervalcoverage / 2) kine_betaa kine_betab).

(** ** The engine: catalogue, generator and the trace of calls *)

Inductive Event : Type :=
  | Warning (msg : string)
  | AddSelfSource (name : string)
  | AddQuantity (name : string) (key : FASTSTARS) (call : QuantityCall)
  | JournalEntries.

Record World : Type := {
  w_catalog : catalog;
  w_rng : rng_state;
  w_trace : list Event
}.

Definition Eng (A : Type) : Type := World → result A * World.

#[export] Instance Eng_ret : MRet Eng := fun A a w => (Ok a, w).
#[export] Instance Eng_bind : MBind Eng := fun A B f m w =>
  match m w with
  | (Ok a, w') => f a w'
  | (Raise e, w') => (Raise e, w')
  end.

Definition lift {A} (r : result A) : Eng A := fun w => (r, w).

Definition emit (ev : Event) (w : World) : World :=
  {| w_catalog := w_catalog w; w_rng := w_rng w;
     w_trace := w_trace w ++ [ev] |}.

Definition set_catalog (c : catalog) (w : World) : World :=
  {| w_catalog := c; w_rng := w_rng w; w_trace := w_trace w |}.

(** Run generator code on the world's generator. *)
Definition in_rnd {A} (m : Rnd A) : Eng A := fun w =>
  let '(r, st) := m (w_rng w) in
  (r, {| w_catalog := w_catalog w; w_rng := st; w_trace := w_trace w |}).

Definition log_warning (msg : string) : Eng unit := fun w =>
  (Ok (), emit (Warning msg) w).

Definition entry_add_self_source (name : string) : Eng string := fun w =>
  let '(source, c) := add_self_source name (w_catalog w) in
  (Ok source, emit (AddSelfSource name) (set_catalog c w)).

Definition entry_add_quantity (name : string) (key : FASTSTARS)
    (call : QuantityCall) : Eng unit := fun w =>
  (Ok (), emit (AddQuantity name key call)
            (set_catalog (add_quantity name key call (w_catalog w)) w)).

Definition catalog_keys : Eng (list string) := fun w =>
  (Ok (entries_keys (w_catalog w)), w).

Definition catalog_journal_entries : Eng unit := fun w =>
  (Ok (), emit JournalEntries
            (set_catalog (journal_entries (w_catalog w)) w)).

(** The chain file read and its columns 5 and 6 taken (lines 62-66). *)
Definition load_chain : Eng Policy := fun w =>
  (chain ← genfromtxt (w_catalog w);
   VESCSOLAR ← column 5 chain;
   ALPHA ← column 6 chain;
   Ok (Williams2017 VESCSOLAR ALPHA), w).

(** Lines 263-276. *)
Definition store_outcomes (name : string) (ss : StarSamples) : Eng unit :=
  vesc ← lift (or_raise UnboundLocalError (kine_vesc ss));
  kine_bound_n ← lift (count_bound vesc (kine_vgrf ss));
  let '(lower, median, upper) :=
    kine_bound_percentiles kine_bound_n (kine_samples_n ss) in
  source ← entry_add_self_source name;
  let boundprobability_upperlimit :=
    Bool.eqb (havepropermotions (inputs ss)) false
    || Bool.eqb (havevelocities (inputs ss)) false in
  _ ← entry_add_quantity name BOUND_PROBABILITY
        {| q_value := str median; q_e_value := None;
           q_e_lower_value := Some (str (median - lower));
           q_e_upper_value := Some (str (upper - median));
           q_u_value := None;
           q_upperlimit := Some boundprobability_upperlimit;
           q_lowerlimit := None; q_source := source; q_derived := true;
           q_kind := [] |};
  _ ← entry_add_quantity name VELOCITY
        {| q_value := str (np_mean vesc);
           q_e_value := Some (str (np_std vesc));
           q_e_lower_value := None; q_e_upper_value := None;
           q_u_value := Some "km/s"%string;
           q_upperlimit := None; q_lowerlimit := None;
           q_source := source; q_derived := true;
           q_kind := ["galactocentric"; "escape"]%string |};
  _ ← entry_add_quantity name VELOCITY
        {| q_value := str (np_mean (kine_vgrf ss));
           q_e_value := Some (str (np_std (kine_vgrf ss)));
           q_e_lower_value := None; q_e_upper_value := None;
           q_u_value := Some "km/s"%string;
           q_upperlimit := None;
           q_lowerlimit := Some boundprobability_upperlimit;
           q_source := source; q_derived := true;
           q_kind := ["galactocentric"; "total"]%string |};
  if Bool.eqb (haveparallax (inputs ss)) true then
    let distance := c0 <$> kine_samples_corrected ss in
    entry_add_quantity name LUM_DIST
      {| q_value := str (np_mean distance);
         q_e_value := Some (str (np_std distance));
         q_e_lower_value := None; q_e_upper_value := None;
         q_u_value := Some "kpc"%string;
         q_upperlimit := None; q_lowerlimit := None;
         q_source := source; q_derived := true; q_kind := [] |}
  else mret ().

(** ** [do_boundprobability] (lines 54-280) *)

Definition not_found_message (oname : string) : string :=
  (String "034" oname ++ String "034"
     " was not found, suggests merge occurred in cleanup process.")%string.

Definition vescmethod_message : string :=
  "vescmethod was not properly defined, please check.".

(** The test of lines 93-94: no sky position, or no distance information. *)
Definition lacks_data (e : Entry) : bool :=
  negb (has (e RA)) || negb (has (e DEC))
  || (negb (has (e LUM_DIST)) && negb (has (e PARALLAX))).

(** The body of the loop over the keys (lines 83-276). *)
Definition star_step (Tm : mat3) (policy : Policy) (oname : string)
  : Eng unit := fun w =>
  match add_entry oname (w_catalog w) with
  | (None, c) => log_warning (not_found_message oname) (set_catalog c w)
  | (Some name, c) =>
      (e ← lift (or_raise KeyError (entries c name));
       if lacks_data e then mret ()
       else
         ss ← in_rnd (star_samples Tm policy name e);
         store_outcomes name ss) (set_catalog c w)
  end.

Fixpoint star_loop (Tm : mat3) (policy : Policy) (keys : list string)
  : Eng unit :=
  match keys with
  | [] => mret ()
  | oname :: keys' =>
      _ ← star_step Tm policy oname; star_loop Tm policy keys'
  end.

(** Lines 59-79. *)
Definition resolve_policy (vescmethod : string) : Eng Policy :=
  if String.eqb vescmethod "galpy" then mret Galpy
  else if String.eqb vescmethod "williams2017" then load_chain
  else
    _ ← log_warning vescmethod_message; mret Unresolved.

(** The task, for a given value of the module constant [vescmethod]; the
    module body, which builds [T], has run on import. *)
Definition do_boundprobability (vescmethod : string) : Eng unit :=
  Tm ← lift T;
  keys ← catalog_keys;
  policy ← resolve_policy vescmethod;
  _ ← star_loop Tm policy keys;
  catalog_journal_entries.

(** The configured method (line 38). *)
Definition vescmethod : string := "williams2017".

(** A call that writes to a catalogue entry. *)
Definition is_write (ev : Event) : bool :=
  match ev with
  | AddSelfSource _ | AddQuantity _ _ _ => true
  | Warning _ | JournalEntries => false
  end.

End Definitions.

(** ** The credible interval as the specification words it

    The probabilities at which the specification takes the two bounds, for
    comparison with the ones [kine_bound_percentiles] passes to
    [beta.ppf]. *)
Definition spec_lower_level : Q := (1 - confidenceintervalcoverage) / 2.
Definition spec_upper_level : Q := 1 - (1 - confidenceintervalcoverage) / 2.

(** ** Notions used to state further properties *)

Section Notions.
Context {libs : PyLibs}.

(** The error metric of one measurement, as lines 46-49 compute it: the
    symmetric error, else the larger of the two asymmetric errors, else the
    sentinel. *)
Definition error_metric (q : Quantity) : result Q :=
  match e_value q with
  | Some e => to_float e
  | None =>
      match e_lower_value q, e_upper_value q with
      | Some lo, Some up =>
          lo ← to_float lo; up ← to_float up; Ok (py_max lo up)
      | _, _ => Ok 9999.9
      end
  end.
End Notions.

(** The product of the character codes of a name. *)
Fixpoint code_product (s : string) : Z :=
  match s with
  | EmptyString => 1%Z
  | String c s' => (ord c * code_product s')%Z
  end.

(** Matrices and vectors up to equality of rationals. *)
Definition mat3_id : mat3 := M3 (V3 1 0 0) (V3 0 1 0) (V3 0 0 1).
Definition vec3_eq (u v : vec3) : Prop :=
  x0 u == x0 v ∧ x1 u == x1 v ∧ x2 u == x2 v.
Definition mat3_eq (M N : mat3) : Prop :=
  vec3_eq (r0 M) (r0 N) ∧ vec3_eq (r1 M) (r1 N) ∧ vec3_eq (r2 M) (r2 N).
(** The rows of [M] are orthonormal. *)
Definition orthogonal (M : mat3) : Prop :=
  mat3_eq (mat3_mul M (mat3_transpose M)) mat3_id.
Definition mat3_det (M : mat3) : Q :=
  x0 (r0 M) * (x1 (r1 M) * x2 (r2 M) - x2 (r1 M) * x1 (r2 M))
  - x1 (r0 M) * (x0 (r1 M) * x2 (r2 M) - x2 (r1 M) * x0 (r2 M))
  + x2 (r0 M) * (x0 (r1 M) * x1 (r2 M) - x1 (r1 M) * x0 (r2 M)).
Definition vec3_norm2 (v : vec3) : Q := x0 v ^ 2 + x1 v ^ 2 + x2 v ^ 2.

(** A correlation matrix whose only free entry is the one between the two
    proper motions. *)
Definition corr_shape (c12 : Q) : list (list Q) :=
  [[1; 0; 0; 0]; [0; 1; c12; 0]; [0; c12; 1; 0]; [0; 0; 0; 1]].

(** What the loop over the keys may add to the trace: a warning, a self
    source, or a quantity flagged as derived under one of the three keys
    the task writes. *)
Definition star_event (ev : Event) : bool :=
  match ev with
  | Warning _ | AddSelfSource _ => true
  | AddQuantity _ key call =>
      q_derived call
      && match key with
         | BOUND_PROBABILITY | VELOCITY | LUM_DIST => true
         | _ => false
         end
  | JournalEntries => false
  end.

(** ** A small instance of the interfaces, for the examples

    Decimal text for [float], a fraction for [str], rational stand-ins for
    the transcendental functions (the sine and cosine of one fixed angle), a counter for the random generator and an
    association list for the catalogue. *)
Module Demo.

Definition digit_of (c : ascii) : option Z :=
  let n := ord c in
  if ((48 <=? n) && (n <=? 57))%Z then Some (n - 48)%Z else None.

Fixpoint decimal_digits (s : string) (num : Z) (den : positive)
    (frac seen : bool) : option Q :=
  match s with
  | EmptyString => if seen then Some (num # den) else None
  | String c s' =>
      if Ascii.eqb c "." then
        if frac then None else decimal_digits s' num den true seen
      else
        d ← digit_of c;
        decimal_digits s' (10 * num + d)%Z
          (if frac then (10 * den)%positive else den) frac true
  end.

(** [float] on plain decimal literals such as [-12.5]. *)
Definition float_of_decimal (s : string) : option Q :=
  match s with
  | String "-" s' => Qopp <$> decimal_digits s' 0 1 false false
  | _ => decimal_digits s 0 1 false false
  end.

Definition str_of_fraction (q : Q) : string :=
  let q := Qred q in
  (pretty (Qnum q) ++ "/" ++ pretty (Z.pos (Qden q)))%string.

#[export] Instance libs : PyLibs := {|
  float := float_of_decimal;
  str := str_of_fraction;
  pi := 3.14159;
  cos := fun _ => 0.8;
  sin := fun _ => 0.6;
  np_sqrt := fun x => x;
  np_power := fun x y => x * y;
  np_mean := fun l => fold_right Qplus 0 l / inject_Z (Z.of_nat (length l));
  np_std := fun _ => 0;
  beta_ppf := fun q _ _ => q;
  galpy_vesc := fun r => 550 - r;
  skycoord := fun _ => Some {| a_ra := 1; a_dec := 0; a_l := 0; a_b := 0 |};
  QUANTITY_DERIVED_eq_True := false
|}.

(** The generator state is a counter; [choice] walks the population from
    it. *)
#[export] Instance rnd : Random := {|
  rng_state := Z;
  np_random_seed := fun s => s;
  np_random_choice := fun n size st =>
    ((fun i => Z.to_nat ((st + Z.of_nat i) mod Z.of_nat n)) <$> seq 0 size,
     (st + Z.of_nat size)%Z)
|}.

Definition rng_at (z : Z) : rng_state := z.

#[export] Instance utils : Utils := {|
  kinematic_sampler := fun _ values _ _ _ _ st =>
    let v i := nth i values 0 in
    (Ok [Row4 (v 0%nat) (v 1%nat) (v 2%nat) (v 3%nat);
         Row4 (v 0%nat + 1) (v 1%nat) (v 2%nat) (v 3%nat)], (st + 1)%Z);
  solarmotion_sampler := fun _ n st =>
    (Ok (replicate n (Row5 8 220 11 12 7)), (st + 1)%Z)
|}.

Record DemoCatalog : Type := {
  dc_keys : list string;
  dc_table : list (string * Entry);
  dc_chain : list (list Q)
}.

Fixpoint assoc {A} (name : string) (l : list (string * A)) : option A :=
  match l with
  | [] => None
  | (n, a) :: l' => if String.eqb n name then Some a else assoc name l'
  end.

#[export] Instance cat : Catalog := {|
  catalog := DemoCatalog;
  entries_keys := dc_keys;
  add_entry := fun oname c =>
    (if has (assoc oname (dc_table c)) then Some oname else None, c);
  entries := fun c name => assoc name (dc_table c);
  add_self_source := fun _ c => ("1"%string, c);
  add_quantity := fun _ _ _ c => c;
  journal_entries := fun c => c;
  genfromtxt := fun c => Ok (dc_chain c)
|}.

Definition measurement (v : string) (e : option string) : Quantity :=
  {| value := Some v; e_value := e; e_lower_value := None;
     e_upper_value := None; correlations := None; derived := None |}.

Definition derived_measurement (v : string) (e : option string) : Quantity :=
  {| value := Some v; e_value := e; e_lower_value := None;
     e_upper_value := None; correlations := None; derived := Some true |}.

(** A star with a position, a parallax and a radial velocity only. *)
Definition star_without_propermotion : Entry := fun key =>
  match key with
  | RA => Some [measurement "06h45m09s" None]
  | DEC => Some [measurement "-16d42m58s" None]
  | PARALLAX => Some [measurement "5.0" (Some "0.5"%string)]
  | VELOCITY => Some [measurement "20.0" (Some "2.0"%string)]
  | _ => None
  end.

(** An entry with a radial velocity but no position. *)
Definition star_without_position : Entry := fun key =>
  match key with
  | VELOCITY => Some [measurement "20.0" (Some "2.0"%string)]
  | _ => None
  end.

(** Two measurements of one quantity: the first flagged as derived. *)
Definition derived_then_primary : list Quantity :=
  [derived_measurement "1.0" (Some "0.1"%string);
   measurement "1.0" (Some "0.5"%string)].

(** A photometric distance whose error lies between 9999.0 and 9999.9. *)
Definition star_with_loose_lumdist : Entry := fun key =>
  match key with
  | LUM_DIST => Some [measurement "10" (Some "9999.5"%string)]
  | _ => None
  end.

(** Photometric distances with value zero, and with error zero. *)
Definition star_with_zero_lumdist : Entry := fun key =>
  match key with
  | LUM_DIST => Some [measurement "0" None]
  | _ => None
  end.

Definition star_with_exact_lumdist : Entry := fun key =>
  match key with
  | LUM_DIST => Some [measurement "10" (Some "0"%string)]
  | _ => None
  end.

Definition star_with_lumdist : Entry := fun key =>
  match key with
  | LUM_DIST => Some [measurement "10" (Some "2"%string)]
  | _ => None
  end.

Definition chain : list (list Q) :=
  [[0; 0; 0; 0; 0; 520; 2.5];
   [0; 0; 0; 0; 0; 530; 2.25];
   [0; 0; 0; 0; 0; 540; 2]].

(** A catalogue whose first key no longer resolves. *)
Definition catalog_of (c : DemoCatalog) : catalog := c.

Definition demo_table : list (string * Entry) :=
  [("HVS1"%string, star_without_position);
   ("HVS2"%string, star_without_propermotion)].

Definition demo_catalog : catalog :=
  catalog_of {| dc_keys := ["HVS0"; "HVS1"; "HVS2"]%string;
                dc_table := demo_table; dc_chain := chain |}.

(** The same catalogue without its last key. *)
Definition short_catalog : catalog :=
  catalog_of {| dc_keys := ["HVS0"; "HVS1"]%string;
                dc_table := demo_table; dc_chain := chain |}.

Definition I3 : mat3 := M3 (V3 1 0 0) (V3 0 1 0) (V3 0 0 1).

Definition demo_world : World :=
  {| w_catalog := demo_catalog; w_rng := rng_at 0; w_trace := [] |}.

(** Further data for the examples. *)
Definition asymmetric_measurement (v lo up : string) : Quantity :=
  {| value := Some v; e_value := None; e_lower_value := Some lo;
     e_upper_value := Some up; correlations := None; derived := None |}.

(** Five measurements with metrics 0.5, 0.1, 0.3, 9999.9 and 0.1. *)
Definition several_measurements : list Quantity :=
  [measurement "1" (Some "0.5"%string);
   measurement "2" (Some "0.1"%string);
   asymmetric_measurement "3" "0.1" "0.3";
   measurement "4" None;
   measurement "5" (Some "0.1"%string)].

Definition unreadable_measurements : list Quantity :=
  [measurement "1" (Some "0.1"%string);
   measurement "2" (Some "n/a"%string)].

(** The frame transform of the instance. *)
Definition demo_T : mat3 :=
  Eval vm_compute in match T with Ok Tm => Tm | Raise _ => I3 end.

Definition star_with_parallax_only : Entry := fun key =>
  match key with
  | RA => Some [measurement "06h45m09s" None]
  | DEC => Some [measurement "-16d42m58s" None]
  | PARALLAX => Some [measurement "5.0" (Some "0.5"%string)]
  | _ => None
  end.

Definition star_with_bare_velocity : Entry := fun key =>
  match key with
  | RA => Some [measurement "06h45m09s" None]
  | DEC => Some [measurement "-16d42m58s" None]
  | PARALLAX => Some [measurement "5.0" (Some "0.5"%string)]
  | VELOCITY => Some [measurement "-300" None]
  | _ => None
  end.

Definition star_with_propermotions : Entry := fun key =>
  match key with
  | RA => Some [measurement "06h45m09s" None]
  | DEC => Some [measurement "-16d42m58s" None]
  | PARALLAX => Some [measurement "5.0" (Some "0.5"%string)]
  | PROPER_MOTION_RA => Some [measurement "10.0" (Some "0.3"%string)]
  | PROPER_MOTION_DEC => Some [measurement "-5.0" None]
  | _ => None
  end.

Definition star_with_bare_parallax : Entry := fun key =>
  match key with
  | RA => Some [measurement "06h45m09s" None]
  | DEC => Some [measurement "-16d42m58s" None]
  | PARALLAX => Some [measurement "5.0" None]
  | _ => None
  end.

(** A catalogue whose chain table has three columns only, and one whose
    chain table has a single row. *)
Definition narrow_world : World :=
  {| w_catalog :=
       catalog_of {| dc_keys := ["HVS1"; "HVS2"]%string;
                     dc_table := demo_table;
                     dc_chain := [[1; 2; 3]; [4; 5; 6]] |};
     w_rng := rng_at 0; w_trace := [] |}.

Definition single_row_world : World :=
  {| w_catalog :=
       catalog_of {| dc_keys := ["HVS1"; "HVS2"]%string;
                     dc_table := demo_table;
                     dc_chain := [[0; 0; 0; 0; 0; 520; 2.5]] |};
     w_rng := rng_at 0; w_trace := [] |}.

(** A catalogue whose first star has a parallax without error. *)
Definition bare_catalog : catalog :=
  catalog_of {| dc_keys := ["HVS3"; "HVS2"]%string;
                dc_table := [("HVS3"%string, star_with_bare_parallax);
                             ("HVS2"%string, star_without_propermotion)];
                dc_chain := chain |}.

Definition bare_world : World :=
  {| w_catalog := bare_catalog; w_rng := rng_at 0; w_trace := [] |}.

End Demo.

(** * Properties *)

(** ** Inversion of the monadic binds *)

Lemma result_bind_Ok {A B} (m : result A) (f : A → result B) (b : B) :
  (m ≫= f) = Ok b → ∃ a, m = Ok a ∧ f a = Ok b.
Proof. destruct m as [a|e]; [eauto | discriminate]. Qed.

Lemma mapM_result_ext {A B} (f : A → result B) (g : A → B) (l : list A) :
  (∀ x, x ∈ l → f x = Ok (g x)) → mapM f l = Ok (g <$> l).
Proof.
  induction l as [|x l IH]; intros Hf; [reflexivity|].
  cbn. rewrite (Hf x) by left. cbn.
  rewrite IH by (intros y Hy; apply Hf; now right). reflexivity.
Qed.

Lemma mapM_result_length {A B} (f : A → result B) (l : list A) (k : list B) :
  mapM f l = Ok k → length k = length l.
Proof.
  revert k. induction l as [|x l IH]; intros k; cbn.
  - intros [= <-]. reflexivity.
  - destruct (f x) as [y|]; [|discriminate]. cbn.
    destruct (mapM f l) as [k'|]; [|discriminate]. cbn.
    intros [= <-]. cbn. now rewrite (IH k').
Qed.

Lemma mapM_result_lookup {A B} (f : A → result B) (l : list A) (k : list B)
    (i : nat) (x : A) :
  mapM f l = Ok k → l !! i = Some x → ∃ y, k !! i = Some y ∧ f x = Ok y.
Proof.
  revert k i. induction l as [|x' l IH]; intros k i; cbn; [now intros _ ?|].
  destruct (f x') as [y|] eqn:Hy; [|discriminate]. cbn.
  destruct (mapM f l) as [k'|]; [|discriminate]. cbn.
  intros [= <-]. destruct i as [|i]; cbn.
  - intros [= ->]. eauto.
  - intros Hi. now apply (IH k').
Qed.

(** ** The seed *)

Lemma wrap64_mod (z : Z) :
  (wrap64 z mod 2 ^ 32 = z mod 2 ^ 32)%Z.
Proof.
  unfold wrap64.
  replace ((z + 2 ^ 63) mod 2 ^ 64 - 2 ^ 63)%Z
    with ((z + 2 ^ 63) mod 2 ^ 64 + - 2 ^ 31 * 2 ^ 32)%Z by lia.
  rewrite Z.mod_add by lia.
  rewrite Z.mod_mod_divide by (exists (2 ^ 32)%Z; reflexivity).
  replace (z + 2 ^ 63)%Z with (z + 2 ^ 31 * 2 ^ 32)%Z by lia.
  now rewrite Z.mod_add by lia.
Qed.

Lemma np_prod_mod (l : list Z) :
  (np_prod l mod 2 ^ 32 = fold_right Z.mul 1 l mod 2 ^ 32)%Z.
Proof.
  unfold np_prod.
  enough (H : ∀ acc,
    (fold_left (fun acc x => wrap64 (acc * x)) l acc mod 2 ^ 32
     = (acc * fold_right Z.mul 1 l) mod 2 ^ 32)%Z).
  { rewrite H. f_equal. lia. }
  induction l as [|x l IH]; intros acc; cbn [fold_left fold_right].
  - f_equal. lia.
  - rewrite IH.
    rewrite Z.mul_mod, wrap64_mod, <- Z.mul_mod by lia. f_equal. lia.
Qed.

Lemma string_get_lt (s : string) (j : nat) :
  (j < String.length s)%nat → ∃ c, String.get j s = Some c.
Proof.
  revert j. induction s as [|c s IH]; intros j; cbn; [lia|].
  destruct j as [|j]; [eauto|]. intros Hj. apply IH. lia.
Qed.

Lemma craft_seed_empty : craft_seed EmptyString = Raise ZeroDivisionError.
Proof. reflexivity. Qed.

Lemma craft_seed_nonempty (SEED : string) :
  SEED ≠ EmptyString →
  craft_seed SEED = Ok (cyclic_product SEED mod 2 ^ 32)%Z.
Proof.
  intros Hne. unfold craft_seed, cyclic_product.
  assert (Hlen : String.length SEED ≠ 0%nat) by (destruct SEED; cbn; congruence).
  rewrite (mapM_result_ext _ (cyclic_code SEED)).
  - cbn. f_equal. exact (np_prod_mod _).
  - intros i _. unfold py_mod, cyclic_code.
    destruct (Nat.eqb_spec (String.length SEED) 0) as [|_]; [contradiction|].
    cbn. destruct (string_get_lt SEED (i mod String.length SEED)) as [c ->];
      [now apply Nat.mod_upper_bound | reflexivity].
Qed.

Section SeedProperties.
Context {rnd : Random}.

Lemma random_seed_in_range (s : Z) (st : rng_state) :
  (0 ≤ s < 2 ^ 32)%Z → random_seed s st = (Ok (), np_random_seed s).
Proof.
  intros Hs. unfold random_seed.
  destruct (Z.leb_spec 0 s); [|lia]. destruct (Z.ltb_spec s (2 ^ 32)); [|lia].
  reflexivity.
Qed.

Lemma vescsolar_sampler_seeded (VESCSOLAR ALPHA : list Q) (NAME : string)
    (NSAMP : nat) (st : rng_state) :
  NAME ≠ EmptyString →
  vescsolar_sampler VESCSOLAR ALPHA NAME NSAMP st
  = (choice_chain ← random_choice (length VESCSOLAR) NSAMP;
     vesc ← pure (take_indices VESCSOLAR choice_chain);
     alpha ← pure (take_indices ALPHA choice_chain);
     mret (vesc, alpha))
      (np_random_seed (cyclic_product NAME mod 2 ^ 32)%Z).
Proof.
  intros Hne. unfold vescsolar_sampler.
  unfold mbind at 1, Rnd_bind at 1, pure at 1.
  rewrite (craft_seed_nonempty NAME Hne).
  unfold mbind at 1, Rnd_bind at 1.
  rewrite random_seed_in_range by (apply Z.mod_pos_bound; lia).
  reflexivity.
Qed.

(** C10: a non-empty identifier gives a seed in [0, 2^32), which
    [np.random.seed] accepts; for the empty identifier the seed computation
    raises [ZeroDivisionError], and so does the chain sampler. *)
Theorem craft_seed_range_or_failure (SEED : string) :
  (SEED ≠ EmptyString →
   ∃ s, craft_seed SEED = Ok s ∧ (0 ≤ s < 2 ^ 32)%Z
        ∧ ∀ st, random_seed s st = (Ok (), np_random_seed s))
  ∧ craft_seed EmptyString = Raise ZeroDivisionError
  ∧ ∀ VESCSOLAR ALPHA NSAMP st,
      vescsolar_sampler VESCSOLAR ALPHA EmptyString NSAMP st
      = (Raise ZeroDivisionError, st).
Proof.
  split; [|split].
  - intros Hne. exists (cyclic_product SEED mod 2 ^ 32)%Z.
    assert (Hs : (0 ≤ cyclic_product SEED mod 2 ^ 32 < 2 ^ 32)%Z)
      by (apply Z.mod_pos_bound; lia).
    split; [now apply craft_seed_nonempty|]. split; [exact Hs|].
    intros st. now apply random_seed_in_range.
  - exact craft_seed_empty.
  - reflexivity.
Qed.

(** C6: the samples the chain sampler returns do not depend on the state
    the global generator is in when it is called, so two calls with the same
    name and sample count return the same pair.  The reason is the seed:
    for a non-empty name the sampler is the draw of the indices and the
    two look-ups run from the state [np.random.seed] installs for the
    product of the character codes taken cyclically over [2 * (len + 3)]
    indices, reduced modulo 2^32, which is the value of [craft_seed]. *)
Theorem vescsolar_sampler_deterministic (VESCSOLAR ALPHA : list Q)
    (NAME : string) (NSAMP : nat) (st1 st2 : rng_state) :
  (vescsolar_sampler VESCSOLAR ALPHA NAME NSAMP st1).1
  = (vescsolar_sampler VESCSOLAR ALPHA NAME NSAMP st2).1
  ∧ (NAME ≠ EmptyString →
     craft_seed NAME = Ok (cyclic_product NAME mod 2 ^ 32)%Z
     ∧ vescsolar_sampler VESCSOLAR ALPHA NAME NSAMP st1
       = vescsolar_sampler VESCSOLAR ALPHA NAME NSAMP st2
     ∧ vescsolar_sampler VESCSOLAR ALPHA NAME NSAMP st1
       = (choice_chain ← random_choice (length VESCSOLAR) NSAMP;
          vesc ← pure (take_indices VESCSOLAR choice_chain);
          alpha ← pure (take_indices ALPHA choice_chain);
          mret (vesc, alpha))
           (np_random_seed (cyclic_product NAME mod 2 ^ 32)%Z)).
Proof.
  destruct (decide (NAME = EmptyString)) as [->|Hne].
  - split; [reflexivity | congruence].
  - rewrite !(vescsolar_sampler_seeded _ _ _ _ _ Hne).
    split; [reflexivity|]. intros _.
    split; [now apply craft_seed_nonempty|]. split; reflexivity.
Qed.

End SeedProperties.

(** ** The selector *)

Section SelectorProperties.
Context {libs : PyLibs}.

(** C1: on a list whose first entry is flagged as derived and carries the
    smaller error, and whose second entry is primary and carries an error,
    the selector returns index 0, the derived entry: the flag of an entry is
    never read. *)
Theorem best_parameter_returns_derived :
  float "0.1" = Some 0.1 → float "0.5" = Some 0.5 →
  fst <$> best_parameter Demo.derived_then_primary = Ok 0%nat
  ∧ (∃ q, Demo.derived_then_primary !! 0%nat = Some q ∧ derived q = Some true)
  ∧ (∃ q, Demo.derived_then_primary !! 1%nat = Some q ∧ derived q = None
          ∧ has (e_value q) = true).
Proof.
  intros H1 H5. split; [|split; eexists; cbn; eauto].
  unfold best_parameter, Demo.derived_then_primary. cbn.
  destruct QUANTITY_DERIVED_eq_True; cbn; [reflexivity|].
  unfold to_float. rewrite H1. cbn. rewrite H5. reflexivity.
Qed.

Lemma for_each_ext {S A} (f g : S → A → result S) (s : S) (l : list A) :
  (∀ s a, f s a = g s a) → for_each f s l = for_each g s l.
Proof.
  intros H. revert s. induction l as [|a l IH]; intros s; cbn; [reflexivity|].
  rewrite H. destruct (g s a); cbn; [apply IH | reflexivity].
Qed.

(** The selector's result does not depend on the derived flags of the
    entries. *)
Lemma best_parameter_ignores_derived (flag : Quantity → option bool)
    (PARAMETER : list Quantity) :
  best_parameter ((fun q => with_derived (flag q) q) <$> PARAMETER)
  = best_parameter PARAMETER.
Proof.
  unfold best_parameter. rewrite length_fmap.
  erewrite for_each_ext; [reflexivity|].
  intros err i. cbn. destruct QUANTITY_DERIVED_eq_True; [reflexivity|].
  rewrite list_lookup_fmap. destruct (PARAMETER !! i); reflexivity.
Qed.

(** The example of the specification: a primary entry with symmetric error
    0.1 and a derived entry without error, in either order.  The selector
    returns the primary entry, because the derived one has no error field
    (and the test of line 44 is false). *)
Lemma best_parameter_spec_example :
  QUANTITY_DERIVED_eq_True = false → float "0.1" = Some 0.1 →
  best_parameter [Demo.measurement "1.0" (Some "0.1"%string);
                  Demo.derived_measurement "1.0" None] = Ok (0%nat, 0.1)
  ∧ best_parameter [Demo.derived_measurement "1.0" None;
                    Demo.measurement "1.0" (Some "0.1"%string)]
    = Ok (1%nat, 0.1).
Proof.
  intros Hd H1. unfold best_parameter. cbn. rewrite Hd. cbn.
  unfold to_float. rewrite H1. split; reflexivity.
Qed.

End SelectorProperties.

(** ** The credible interval and the distance prior *)

(** Matching a mean [mu] and a variance [sigma^2] by [k * L] and
    [k * L^2]. *)
Lemma moment_match (mu sigma : Q) :
  ¬ mu == 0 → ¬ sigma == 0 →
  ¬ sigma ^ 2 / mu == 0
  ∧ mu / (sigma ^ 2 / mu) * (sigma ^ 2 / mu) == mu
  ∧ mu / (sigma ^ 2 / mu) * (sigma ^ 2 / mu) ^ 2 == sigma ^ 2.
Proof.
  intros Hmu Hsigma.
  assert (Hsq : ¬ sigma * sigma == 0).
  { intros H. destruct (Qmult_integral _ _ H); contradiction. }
  assert (HL : ¬ sigma ^ 2 / mu == 0).
  { intros H. apply Hsq.
    assert (E : sigma * sigma == sigma ^ 2 / mu * mu)
      by (simpl; field; exact Hmu).
    rewrite H in E. rewrite E. ring. }
  split; [exact HL|]. simpl in *.
  split; field; (split; [exact Hmu | exact Hsigma]).
Qed.

Section IntervalProperties.
Context {libs : PyLibs}.
#[local] Arguments Qpower : simpl never.

(** C2: the bounds are the quantiles of the Beta posterior at the
    probabilities coverage / 2 = 0.34135 and 1 - coverage / 2 = 0.65865,
    not at (1 - coverage) / 2 = 0.15865 and 1 - (1 - coverage) / 2 =
    0.84135 as the specification has it. *)
Theorem kine_bound_percentiles_levels (kine_bound_n kine_samples_n : nat) :
  let a := inject_Z (Z.of_nat kine_bound_n) + 0.5 in
  let b := inject_Z (Z.of_nat kine_samples_n - Z.of_nat kine_bound_n) + 0.5 in
  kine_bound_percentiles kine_bound_n kine_samples_n
  = (beta_ppf (confidenceintervalcoverage / 2) a b,
     beta_ppf 0.5 a b,
     beta_ppf (1 - confidenceintervalcoverage / 2) a b)
  ∧ confidenceintervalcoverage / 2 == 0.34135
  ∧ 1 - confidenceintervalcoverage / 2 == 0.65865
  ∧ spec_lower_level == 0.15865
  ∧ spec_upper_level == 0.84135
  ∧ ¬ confidenceintervalcoverage / 2 == spec_lower_level
  ∧ ¬ 1 - confidenceintervalcoverage / 2 == spec_upper_level.
Proof.
  cbv zeta. split; [reflexivity|].
  unfold spec_lower_level, spec_upper_level, confidenceintervalcoverage.
  repeat split; try reflexivity; intros H; vm_compute in H; discriminate H.
Qed.

(** C7: with a quantile function that is monotone in the probability, the
    lower bound is at most the median and the median at most the upper
    bound, for every count of bound samples between 0 and N. *)
Theorem credible_interval_ordered (kine_bound_n kine_samples_n : nat) :
  (∀ q1 q2 a b, 0 < a → 0 < b → 0 <= q1 → q1 <= q2 → q2 <= 1 →
                beta_ppf q1 a b <= beta_ppf q2 a b) →
  (kine_bound_n ≤ kine_samples_n)%nat →
  (1 ≤ kine_samples_n)%nat →
  let '(lower, median, upper) :=
    kine_bound_percentiles kine_bound_n kine_samples_n in
  lower <= median ∧ median <= upper.
Proof.
  intros Hmono Hle _. unfold kine_bound_percentiles.
  assert (Hpos : ∀ z, (0 ≤ z)%Z → 0 < inject_Z z + 0.5).
  { intros z Hz.
    assert (H : 0 <= inject_Z z)
      by (change 0 with (inject_Z 0); rewrite <- Zle_Qle; exact Hz).
    revert H. generalize (inject_Z z). clear. intros x Hx. lra. }
  assert (Ha := Hpos (Z.of_nat kine_bound_n) ltac:(lia)).
  assert (Hb := Hpos (Z.of_nat kine_samples_n - Z.of_nat kine_bound_n)%Z
                  ltac:(lia)).
  unfold confidenceintervalcoverage.
  split; apply Hmono; try assumption; apply Qle_bool_imp_le; reflexivity.
Qed.

(** C5 (amended): when the entry has a photometric distance with non-zero
    value [mu], the shape [(L, k)] is overridden so that [k * L] is [mu] and
    [k * L^2] is the square of the error [sigma], where [sigma] is the
    selector's metric when that is below 9999.0 and otherwise
    [errorifmissing] = 0.5 times [mu]; [sigma] must not be zero. *)
Theorem lumdist_prior_moments (e : Entry) (lumdist : list Quantity)
    (i : nat) (err mu : Q) (q : Quantity) (v : string) (L0 k0 : Q) :
  e LUM_DIST = Some lumdist →
  best_parameter lumdist = Ok (i, err) →
  lumdist !! i = Some q → value q = Some v → float v = Some mu →
  let sigma := if Qlt_bool err 9999 then err else 0.5 * mu in
  ¬ mu == 0 → ¬ sigma == 0 →
  ∃ L k', lumdist_prior e L0 k0 = Ok (L, k')
          ∧ k' * L == mu ∧ k' * L ^ 2 == sigma ^ 2.
Proof.
  intros He Hbest Hq Hv Hf sigma Hmu Hsigma.
  assert (Hmu' : Qeq_bool mu 0 = false).
  { destruct (Qeq_bool mu 0) eqn:E; [|reflexivity].
    now apply Qeq_bool_iff in E. }
  destruct (moment_match mu sigma Hmu Hsigma) as (HL & HkL & HkL2).
  assert (HL' : Qeq_bool (sigma ^ 2 / mu) 0 = false).
  { destruct (Qeq_bool (sigma ^ 2 / mu) 0) eqn:E; [|reflexivity].
    now apply Qeq_bool_iff in E. }
  exists (sigma ^ 2 / mu), (mu / (sigma ^ 2 / mu)).
  split; [|split; assumption].
  unfold lumdist_prior. rewrite He, Hbest. cbn.
  unfold item, field, to_float. rewrite Hq. cbn. rewrite Hv. cbn.
  rewrite Hf. cbn. unfold errorifmissing.
  subst sigma. destruct (Qlt_bool err 9999);
    cbn; unfold np_div, py_div; rewrite Hmu'; cbn; rewrite HL';
    reflexivity.
Qed.

End IntervalProperties.

(** ** The samples of a star *)

Section SampleProperties.
Context {libs : PyLibs} {rnd : Random} {utils : Utils}.

Lemma Rnd_bind_Ok {A B} (m : Rnd A) (f : A → Rnd B) st b st' :
  (m ≫= f) st = (Ok b, st') →
  ∃ a st1, m st = (Ok a, st1) ∧ f a st1 = (Ok b, st').
Proof.
  unfold mbind, Rnd_bind. destruct (m st) as [[a|e] st1]; [eauto|discriminate].
Qed.

Lemma pure_Ok {A} (r : result A) st a st' :
  pure r st = (Ok a, st') → r = Ok a ∧ st' = st.
Proof. unfold pure. now intros [= -> ->]. Qed.

Lemma np_zip_with_Ok {A B C} (f : A → B → C) xs ys l :
  np_zip_with f xs ys = Ok l →
  length xs = length ys ∧ l = zip_with f xs ys.
Proof.
  unfold np_zip_with. destruct (Nat.eqb_spec (length xs) (length ys)).
  - now intros [= <-].
  - discriminate.
Qed.

Lemma np_zip_with_same_length {A B C} (f : A → B → C) xs ys :
  length xs = length ys → np_zip_with f xs ys = Ok (zip_with f xs ys).
Proof. intros H. unfold np_zip_with. now rewrite H, Nat.eqb_refl. Qed.

(** What a successful run of [star_samples] has done. *)
Lemma star_samples_Ok Tm policy name e st ss st' :
  star_samples Tm policy name e st = (Ok ss, st') →
  ∃ a kine_samples st1 solar st2,
    sky_angles e = Ok a
    ∧ kinematic_inputs e = Ok (inputs ss)
    ∧ kinematic_sampler name (kine_values (inputs ss))
        (kine_errors (inputs ss)) (kine_corr (inputs ss))
        (kine_L (inputs ss)) (kine_k (inputs ss)) st = (Ok kine_samples, st1)
    ∧ kine_samples_n ss = length kine_samples
    ∧ solarmotion_sampler name (length kine_samples) st1 = (Ok solar, st2)
    ∧ kine_samples_solar ss = add_vdisk <$> solar
    ∧ kine_D ss
      = mat3_vec (mat3_transpose (mat3_mul Tm (frame_A a)))
          <$> (vhel_view <$> kine_samples_solar ss)
    ∧ reflex_substitution (havepropermotions (inputs ss))
        (havevelocities (inputs ss)) (kine_D ss)
        (scale_propermotions <$> kine_samples)
      = Ok (kine_samples_corrected ss)
    ∧ np_zip_with (galrad_of (cos (a_b a)) (cos (a_l a)))
        (kine_samples_solar ss) (kine_samples_corrected ss)
      = Ok (kine_galrad ss)
    ∧ escape_velocity policy name (length kine_samples) (kine_galrad ss)
        (kine_samples_solar ss) st2 = (Ok (kine_vesc ss), st').
Proof.
  unfold star_samples. intros H.
  apply Rnd_bind_Ok in H as (a & s & Ha & H). apply pure_Ok in Ha as [Ha ->].
  apply Rnd_bind_Ok in H as (inp & s & Hi & H). apply pure_Ok in Hi as [Hi ->].
  apply Rnd_bind_Ok in H as (kine_samples & st1 & Hk & H).
  apply Rnd_bind_Ok in H as (solar & st2 & Hs & H).
  apply Rnd_bind_Ok in H as (corrected & s & Hc & H).
  apply pure_Ok in Hc as [Hc ->].
  apply Rnd_bind_Ok in H as (vhel & s & Hv & H). apply pure_Ok in Hv as [Hv ->].
  apply Rnd_bind_Ok in H as (galrad & s & Hg & H).
  apply pure_Ok in Hg as [Hg ->].
  apply Rnd_bind_Ok in H as (vesc & st3 & He & H).
  injection H as <- <-. cbn.
  exists a, kine_samples, st1, solar, st2. repeat split; assumption.
Qed.

(** The substitution needs as many reflex vectors as samples, and then
    succeeds. *)
Lemma reflex_substitution_total havepm havevel
    (D : list vec3) (corrected : list row4) :
  length D = length corrected →
  ∃ out, reflex_substitution havepm havevel D corrected = Ok out.
Proof.
  intros HD. unfold reflex_substitution.
  destruct havepm, havevel; cbn;
    repeat (rewrite np_zip_with_same_length
              by (rewrite ?length_zip_with; lia); cbn);
    eauto.
Qed.

Lemma reflex_substitution_no_propermotions havevel
    (D : list vec3) (corrected out : list row4) :
  reflex_substitution false havevel D corrected = Ok out →
  length D = length corrected ∧ length out = length corrected
  ∧ ∀ i r d, out !! i = Some r → D !! i = Some d →
      c1 r = -1 * x1 d ∧ c2 r = -1 * x2 d
      ∧ (havevel = false → c3 r = -1 * x0 d).
Proof.
  unfold reflex_substitution. cbn. intros H.
  apply result_bind_Ok in H as (m & H1 & H).
  apply result_bind_Ok in H1 as (m1 & H1 & H2).
  apply np_zip_with_Ok in H1 as [L1 ->].
  apply np_zip_with_Ok in H2 as [L2 ->].
  destruct havevel; cbn in H.
  - injection H as <-. rewrite !length_zip_with.
    split; [lia|]. split; [lia|]. intros i r d Hr Hd.
    apply lookup_zip_with_Some in Hr as (r1 & d1 & -> & Hr & Hd1).
    apply lookup_zip_with_Some in Hr as (r2 & d2 & -> & Hr & Hd2).
    rewrite Hd in Hd1, Hd2. injection Hd1 as <-. injection Hd2 as <-.
    cbn. repeat split. discriminate.
  - apply np_zip_with_Ok in H as [L3 ->]. rewrite !length_zip_with.
    split; [lia|]. split; [lia|]. intros i r d Hr Hd.
    apply lookup_zip_with_Some in Hr as (r0 & d0 & -> & Hr & Hd0).
    apply lookup_zip_with_Some in Hr as (r1 & d1 & -> & Hr & Hd1).
    apply lookup_zip_with_Some in Hr as (r2 & d2 & -> & Hr & Hd2).
    rewrite Hd in Hd0, Hd1, Hd2.
    injection Hd0 as <-. injection Hd1 as <-. injection Hd2 as <-.
    cbn. repeat split.
Qed.

(** What the substitution leaves in a row: columns 1 and 2 are the reflex
    when there are no proper motions, column 3 is when there is no radial
    velocity, each whatever the other flag says. *)
Lemma reflex_substitution_rows havepm havevel
    (D : list vec3) (corrected out : list row4) :
  reflex_substitution havepm havevel D corrected = Ok out →
  length out = length corrected
  ∧ ∀ i r d, out !! i = Some r → D !! i = Some d →
      (havepm = false → c1 r = -1 * x1 d ∧ c2 r = -1 * x2 d)
      ∧ (havevel = false → c3 r = -1 * x0 d).
Proof.
  unfold reflex_substitution. intros H.
  apply result_bind_Ok in H as (m & H1 & H).
  assert (Hm : length m = length corrected
               ∧ ∀ i r d, m !! i = Some r → D !! i = Some d →
                   havepm = false → c1 r = -1 * x1 d ∧ c2 r = -1 * x2 d).
  { destruct havepm; cbn in H1.
    - injection H1 as <-. split; [reflexivity | discriminate].
    - apply result_bind_Ok in H1 as (m1 & H1 & H2).
      apply np_zip_with_Ok in H1 as [L1 ->].
      apply np_zip_with_Ok in H2 as [L2 ->].
      rewrite !length_zip_with. split; [lia|]. intros i r d Hr Hd _.
      apply lookup_zip_with_Some in Hr as (r1 & d1 & -> & Hr & Hd1).
      apply lookup_zip_with_Some in Hr as (r2 & d2 & -> & Hr & Hd2).
      rewrite Hd in Hd1, Hd2. injection Hd1 as <-. injection Hd2 as <-.
      cbn. split; reflexivity. }
  destruct Hm as [Lm Hm].
  destruct havevel; cbn in H.
  - injection H as <-. split; [exact Lm|]. intros i r d Hr Hd.
    split; [exact (Hm i r d Hr Hd) | discriminate].
  - apply np_zip_with_Ok in H as [L3 ->]. rewrite length_zip_with.
    split; [lia|]. intros i r d Hr Hd.
    apply lookup_zip_with_Some in Hr as (r0 & d0 & -> & Hr & Hd0).
    rewrite Hd in Hd0. injection Hd0 as <-. cbn.
    split; [exact (Hm i r0 d Hr Hd) | reflexivity].
Qed.

(** C4: every sample of a star without proper motions has corrected
    tangential components (columns 1 and 2) equal to -1 times components 1
    and 2 of the solar reflex vector of the same sample, so each sum is
    zero; every sample of a star without a radial velocity has column 3
    equal to -1 times component 0 of that vector, whether or not the star
    has proper motions. *)
Theorem no_propermotions_exact_reflex Tm policy name e st ss st' :
  star_samples Tm policy name e st = (Ok ss, st') →
  length (kine_samples_corrected ss) = kine_samples_n ss
  ∧ length (kine_D ss) = kine_samples_n ss
  ∧ ∀ i, (i < kine_samples_n ss)%nat →
      ∃ r d, kine_samples_corrected ss !! i = Some r
             ∧ kine_D ss !! i = Some d
             ∧ (havepropermotions (inputs ss) = false →
                c1 r = -1 * x1 d ∧ c2 r = -1 * x2 d
                ∧ c1 r + x1 d == 0 ∧ c2 r + x2 d == 0)
             ∧ (havevelocities (inputs ss) = false →
                c3 r = -1 * x0 d ∧ c3 r + x0 d == 0).
Proof.
  intros Hrun.
  apply star_samples_Ok in Hrun
    as (a & ks & st1 & solar & st2 & _ & _ & _ & Hn & _ & _ & HD & Hsub
        & Hgal & _).
  apply reflex_substitution_rows in Hsub as (Lout & Hrows).
  rewrite length_fmap in Lout.
  apply np_zip_with_Ok in Hgal as [Lsc _].
  assert (LD : length (kine_D ss) = length ks)
    by (rewrite HD, !length_fmap; lia).
  rewrite Hn. split; [exact Lout|]. split; [exact LD|].
  intros i Hi.
  destruct (lookup_lt_is_Some_2 (kine_samples_corrected ss) i) as [r Hr];
    [lia|].
  destruct (lookup_lt_is_Some_2 (kine_D ss) i) as [d Hd]; [lia|].
  exists r, d. destruct (Hrows i r d Hr Hd) as (E12 & E3).
  split; [exact Hr|]. split; [exact Hd|]. split.
  - intros Hpm. destruct (E12 Hpm) as [E1 E2].
    split; [exact E1|]. split; [exact E2|].
    split; [rewrite E1; ring | rewrite E2; ring].
  - intros Hv. specialize (E3 Hv). split; [exact E3 | rewrite E3; ring].
Qed.

Lemma reflex_substitution_length havepm havevel
    (D : list vec3) (corrected out : list row4) :
  reflex_substitution havepm havevel D corrected = Ok out →
  length out = length corrected.
Proof.
  unfold reflex_substitution. intros H.
  apply result_bind_Ok in H as (m & H1 & H).
  assert (Hm : length m = length corrected).
  { destruct havepm; cbn in H1.
    - now injection H1 as <-.
    - apply result_bind_Ok in H1 as (m1 & H1 & H2).
      apply np_zip_with_Ok in H1 as [L1 ->].
      apply np_zip_with_Ok in H2 as [L2 ->].
      rewrite !length_zip_with. lia. }
  destruct havevel; cbn in H.
  - injection H as <-. exact Hm.
  - apply np_zip_with_Ok in H as [L3 ->]. rewrite length_zip_with. lia.
Qed.

Lemma or_raise_Ok {A} (e : PyError) (o : option A) (a : A) :
  or_raise e o = Ok a → o = Some a.
Proof. destruct o; cbn; congruence. Qed.

Lemma take_indices_lookup (a : list Q) (idx : list nat) (out : list Q) :
  take_indices a idx = Ok out →
  length out = length idx
  ∧ ∀ i c, idx !! i = Some c → ∃ x, out !! i = Some x ∧ a !! c = Some x.
Proof.
  unfold take_indices. intros H. split; [now apply mapM_result_length in H|].
  intros i c Hc.
  destruct (mapM_result_lookup _ _ _ _ _ H Hc) as (x & Hx & Hac).
  exists x. split; [exact Hx | now apply or_raise_Ok in Hac].
Qed.

Lemma column_lookup (j : nat) (chain : list (list Q)) (col : list Q) :
  column j chain = Ok col →
  length col = length chain
  ∧ ∀ c x, col !! c = Some x →
      ∃ row, chain !! c = Some row ∧ row !! j = Some x.
Proof.
  unfold column. intros H.
  assert (H' : mapM (fun row : list Q => or_raise IndexError (row !! j)) chain
               = Ok col)
    by (destruct chain as [|? [|? ?]]; [discriminate.. | exact H]).
  clear H. pose proof (mapM_result_length _ _ _ H') as Hlen.
  split; [exact Hlen|]. intros c x Hx.
  destruct (lookup_lt_is_Some_2 chain c) as [row Hrow].
  { rewrite <- Hlen. now apply lookup_lt_Some in Hx. }
  destruct (mapM_result_lookup _ _ _ _ _ H' Hrow) as (y & Hy & Hj).
  exists row. split; [exact Hrow|]. apply or_raise_Ok in Hj. congruence.
Qed.

Lemma vescsolar_sampler_Ok VESCSOLAR ALPHA NAME NSAMP st vs al st' :
  vescsolar_sampler VESCSOLAR ALPHA NAME NSAMP st = (Ok (vs, al), st') →
  NAME ≠ EmptyString
  ∧ ∃ choice,
      np_random_choice (length VESCSOLAR) NSAMP
        (np_random_seed (cyclic_product NAME mod 2 ^ 32)%Z) = (choice, st')
      ∧ take_indices VESCSOLAR choice = Ok vs
      ∧ take_indices ALPHA choice = Ok al.
Proof.
  intros H. assert (Hne : NAME ≠ EmptyString).
  { intros ->. discriminate H. }
  split; [exact Hne|]. rewrite (vescsolar_sampler_seeded _ _ _ _ _ Hne) in H.
  apply Rnd_bind_Ok in H as (choice & st1 & Hc & H).
  apply Rnd_bind_Ok in H as (vs' & s & Hv & H). apply pure_Ok in Hv as [Hv ->].
  apply Rnd_bind_Ok in H as (al' & s & Ha & H). apply pure_Ok in Ha as [Ha ->].
  injection H as <- <- <-.
  exists choice. split; [|split; assumption].
  unfold random_choice in Hc.
  destruct (Nat.eqb (length VESCSOLAR) 0 && negb (Nat.eqb NSAMP 0));
    [discriminate|].
  destruct (np_random_choice _ _ _) as [l s]. now injection Hc as <- <-.
Qed.

(** The chain policy, sample by sample. *)
Lemma escape_velocity_williams_Ok VESCSOLAR ALPHA name n
    (galrad : list Q) (solar : list row5) st vesc st' :
  escape_velocity (Williams2017 VESCSOLAR ALPHA) name n galrad solar st
  = (Ok vesc, st') →
  ∃ v choice,
    vesc = Some v
    ∧ np_random_choice (length VESCSOLAR) n
        (np_random_seed (cyclic_product name mod 2 ^ 32)%Z) = (choice, st')
    ∧ length v = length galrad ∧ length solar = length galrad
    ∧ length choice = length galrad
    ∧ ∀ i r s, galrad !! i = Some r → solar !! i = Some s →
        ∃ c vs al, choice !! i = Some c
                   ∧ VESCSOLAR !! c = Some vs ∧ ALPHA !! c = Some al
                   ∧ v !! i = Some (vs * np_power (r / s0 s) (- al / 2)).
Proof.
  cbn [escape_velocity]. intros H.
  apply Rnd_bind_Ok in H as ([vs al] & st1 & Hs & H).
  apply vescsolar_sampler_Ok in Hs as (_ & choice & Hch & Hvs & Hal).
  apply Rnd_bind_Ok in H as (ratio & s & Hr & H). apply pure_Ok in Hr as [Hr ->].
  apply Rnd_bind_Ok in H as (pw & s & Hp & H). apply pure_Ok in Hp as [Hp ->].
  apply Rnd_bind_Ok in H as (v & s & Hv & H). apply pure_Ok in Hv as [Hv ->].
  injection H as <- <-.
  apply result_bind_Ok in Hr as (l & Hl & Hr).
  apply np_zip_with_Ok in Hl as [Lgs ->].
  apply np_zip_with_Ok in Hp as [Lra ->].
  apply np_zip_with_Ok in Hv as [Lvp ->].
  apply take_indices_lookup in Hvs as [Lvs Hvs].
  apply take_indices_lookup in Hal as [Lal Hal].
  pose proof (mapM_result_length _ _ _ Hr) as Lr.
  rewrite length_zip_with in Lr. rewrite length_zip_with in Lvp.
  eexists _, choice.
  split; [reflexivity|]. split; [exact Hch|].
  rewrite !length_zip_with.
  split; [lia|]. split; [lia|]. split; [lia|].
  intros i r s Hi Hsi.
  destruct (lookup_lt_is_Some_2 choice i) as [c Hc].
  { apply lookup_lt_Some in Hi. lia. }
  destruct (Hvs i c Hc) as (x & Hx & Hxc).
  destruct (Hal i c Hc) as (y & Hy & Hyc).
  assert (Hli : zip_with (fun r s => np_div r (s0 s)) galrad solar !! i
                = Some (np_div r (s0 s))).
  { apply lookup_zip_with_Some. eauto. }
  destruct (mapM_result_lookup _ _ _ _ _ Hr Hli) as (q & Hq & Hdiv).
  assert (q = r / s0 s) as ->.
  { unfold np_div in Hdiv. cbn in Hdiv.
    destruct (Qeq_bool (s0 s) 0); [discriminate | congruence]. }
  exists c, x, y. split; [exact Hc|]. split; [exact Hxc|]. split; [exact Hyc|].
  apply lookup_zip_with_Some. eexists _, _. split; [reflexivity|].
  split; [exact Hx|]. apply lookup_zip_with_Some. eauto.
Qed.

Lemma mapM_result_total {A B} (f : A → result B) (l : list A) :
  (∀ x, x ∈ l → ∃ y, f x = Ok y) → ∃ k, mapM f l = Ok k.
Proof.
  induction l as [|x l IH]; intros Hf; cbn; [eauto|].
  destruct (Hf x) as [y ->]; [left|]. cbn.
  destruct IH as [k ->]; [intros z Hz; apply Hf; now right|]. cbn. eauto.
Qed.

Lemma take_indices_total (a : list Q) (idx : list nat) :
  (∀ c, c ∈ idx → (c < length a)%nat) → ∃ out, take_indices a idx = Ok out.
Proof.
  intros H. apply mapM_result_total. intros c Hc.
  destruct (lookup_lt_is_Some_2 a c (H c Hc)) as [x ->]. cbn. eauto.
Qed.

(** The chain policy yields a sample for every index: the name must not be
    empty, the generator must return the requested number of indices into
    the chain, and no sampled solar radius may be zero. *)
Lemma escape_velocity_williams_total VESCSOLAR ALPHA name n
    (galrad : list Q) (solar : list row5) st :
  name ≠ EmptyString →
  length ALPHA = length VESCSOLAR → VESCSOLAR ≠ [] →
  length galrad = n → length solar = n →
  (∀ s, s ∈ solar → ¬ s0 s == 0) →
  (let choice := (np_random_choice (length VESCSOLAR) n
                    (np_random_seed (cyclic_product name mod 2 ^ 32)%Z)).1 in
   length choice = n ∧ ∀ c, c ∈ choice → (c < length VESCSOLAR)%nat) →
  ∃ v st', escape_velocity (Williams2017 VESCSOLAR ALPHA) name n galrad solar st
           = (Ok (Some v), st').
Proof.
  intros Hne Hlen Hnil Hg Hs Hs0 [Hcn Hcr].
  cbn [escape_velocity].
  unfold mbind at 1, Rnd_bind at 1.
  rewrite (vescsolar_sampler_seeded _ _ _ _ _ Hne).
  unfold mbind at 1, Rnd_bind at 1, random_choice.
  destruct VESCSOLAR as [|v0 V]; [contradiction|]. cbn [length Nat.eqb andb].
  destruct (np_random_choice _ _ _) as [choice st1] eqn:Hch. cbn in Hcn, Hcr.
  destruct (take_indices_total (v0 :: V) choice Hcr) as [vs Hvs].
  destruct (take_indices_total ALPHA choice) as [al Hal].
  { intros c Hc. rewrite Hlen. now apply Hcr. }
  unfold mbind at 1, Rnd_bind at 1, pure at 1. rewrite Hvs.
  unfold mbind at 1, Rnd_bind at 1, pure at 1. rewrite Hal.
  cbn [mret Rnd_ret].
  destruct (mapM_result_total id
              (zip_with (fun r s => np_div r (s0 s)) galrad solar))
    as [ratio Hratio].
  { intros x Hx. apply elem_of_lookup_zip_with in Hx
      as (i & r & s & -> & _ & Hsi).
    unfold np_div, id.
    destruct (Qeq_bool (s0 s) 0) eqn:E; [|eauto].
    apply Qeq_bool_iff in E. exfalso. apply (Hs0 s); [|exact E].
    apply list_elem_of_lookup. eauto. }
  pose proof (mapM_result_length _ _ _ Hratio) as Lr.
  rewrite length_zip_with in Lr.
  apply take_indices_lookup in Hvs as [Lvs _].
  apply take_indices_lookup in Hal as [Lal _].
  unfold mbind at 1, Rnd_bind at 1, pure at 1.
  rewrite np_zip_with_same_length by lia. cbn [mbind result_bind].
  rewrite Hratio.
  unfold mbind at 1, Rnd_bind at 1, pure at 1.
  rewrite np_zip_with_same_length by lia.
  unfold mbind at 1, Rnd_bind at 1, pure at 1.
  rewrite np_zip_with_same_length by (rewrite length_zip_with; lia).
  cbn. eauto.
Qed.

(** The escape velocities under a policy whose two lists are columns 5 and
    6 of a table. *)
Lemma williams_escape_velocity_rows Tm (chain : list (list Q)) VESCSOLAR ALPHA
    name e st ss st' :
  column 5 chain = Ok VESCSOLAR → column 6 chain = Ok ALPHA →
  star_samples Tm (Williams2017 VESCSOLAR ALPHA) name e st = (Ok ss, st') →
  let choice :=
    (np_random_choice (length chain) (kine_samples_n ss)
       (np_random_seed (cyclic_product name mod 2 ^ 32)%Z)).1 in
  ∃ vesc,
    kine_vesc ss = Some vesc ∧ length vesc = kine_samples_n ss
    ∧ ∀ i, (i < kine_samples_n ss)%nat →
        ∃ c row v a r s,
          choice !! i = Some c ∧ chain !! c = Some row
          ∧ row !! 5%nat = Some v ∧ row !! 6%nat = Some a
          ∧ VESCSOLAR !! c = Some v ∧ ALPHA !! c = Some a
          ∧ kine_galrad ss !! i = Some r
          ∧ kine_samples_solar ss !! i = Some s
          ∧ vesc !! i = Some (v * np_power (r / s0 s) (- a / 2)).
Proof.
  intros H5 H6 Hrun choice.
  apply star_samples_Ok in Hrun
    as (a & ks & st1 & solar & st2 & _ & _ & _ & Hn & _ & _ & _ & Hsub & Hgal
        & Hesc).
  apply reflex_substitution_length in Hsub. rewrite length_fmap in Hsub.
  apply np_zip_with_Ok in Hgal as [Lsc Hgal].
  assert (Lg : length (kine_galrad ss) = kine_samples_n ss)
    by (rewrite Hgal, length_zip_with; lia).
  rewrite <- Hn in Hesc.
  apply escape_velocity_williams_Ok in Hesc
    as (v & ch & Hv & Hch & Lv & Ls & Lc & Hrows).
  apply column_lookup in H5 as [L5 H5]. apply column_lookup in H6 as [L6 H6].
  assert (choice = ch) as -> by (unfold choice; now rewrite <- L5, Hch).
  exists v. split; [exact Hv|]. split; [lia|]. intros i Hi.
  destruct (lookup_lt_is_Some_2 (kine_galrad ss) i) as [r Hr]; [lia|].
  destruct (lookup_lt_is_Some_2 (kine_samples_solar ss) i) as [s Hs]; [lia|].
  destruct (Hrows i r s Hr Hs) as (c & vs & al & Hc & Hvs & Hal & Hvi).
  destruct (H5 c vs Hvs) as (row & Hrow & Hrow5).
  destruct (H6 c al Hal) as (row' & Hrow' & Hrow6).
  assert (row' = row) as -> by congruence.
  exists c, row, vs, al, r, s. repeat split; assumption.
Qed.

End SampleProperties.

(** ** The loop over the catalogue *)

Section EngineProperties.
Context {libs : PyLibs} {rnd : Random} {utils : Utils} {cat : Catalog}.

Lemma Eng_bind_unfold {A B} (m : Eng A) (f : A → Eng B) (w : World) :
  (m ≫= f) w
  = match m w with
    | (Ok a, w') => f a w'
    | (Raise e, w') => (Raise e, w')
    end.
Proof. reflexivity. Qed.

Lemma lacks_data_true (e : Entry) :
  e RA = None ∨ e DEC = None ∨ (e LUM_DIST = None ∧ e PARALLAX = None) →
  lacks_data e = true.
Proof.
  unfold lacks_data. intros [H|[H|[H1 H2]]].
  - now rewrite H.
  - rewrite H. cbn. now rewrite orb_true_r.
  - rewrite H1, H2. cbn. now rewrite orb_true_r.
Qed.

(** C8: an entry without a right ascension, without a declination, or with
    neither parallax nor photometric distance is passed over: the step
    succeeds, leaves the trace (warnings and writes) and the generator as
    they were and the catalogue as the lookup left it, and the loop goes on
    with the remaining keys. *)
Theorem lacking_entry_skipped Tm policy (oname name : string)
    (c : catalog) (e : Entry) (w : World) (keys : list string) :
  add_entry oname (w_catalog w) = (Some name, c) →
  entries c name = Some e →
  e RA = None ∨ e DEC = None ∨ (e LUM_DIST = None ∧ e PARALLAX = None) →
  star_step Tm policy oname w = (Ok (), set_catalog c w)
  ∧ w_trace (set_catalog c w) = w_trace w
  ∧ w_rng (set_catalog c w) = w_rng w
  ∧ star_loop Tm policy (oname :: keys) w
    = star_loop Tm policy keys (set_catalog c w).
Proof.
  intros Hadd Hent Hlack. apply lacks_data_true in Hlack.
  assert (Hstep : star_step Tm policy oname w = (Ok (), set_catalog c w)).
  { unfold star_step. rewrite Hadd, Eng_bind_unfold. unfold lift. cbn.
    rewrite Hent. cbn. rewrite Hlack. reflexivity. }
  split; [exact Hstep|]. split; [reflexivity|]. split; [reflexivity|].
  cbn [star_loop]. rewrite Eng_bind_unfold, Hstep. reflexivity.
Qed.

(** What is stored for the bound probability: the median, and the
    distances from it to the lower and to the upper bound as asymmetric
    errors, right after the self source is added. *)
Lemma store_outcomes_bound_probability (name : string) (ss : StarSamples)
    (vesc : list Q) (n : nat) (w : World) :
  kine_vesc ss = Some vesc →
  count_bound vesc (kine_vgrf ss) = Ok n →
  ∃ source upperlimit rest,
    w_trace (store_outcomes name ss w).2
    = w_trace w ++
        AddSelfSource name
        :: AddQuantity name BOUND_PROBABILITY
             {| q_value := str (kine_bound_percentiles n (kine_samples_n ss)).1.2;
                q_e_value := None;
                q_e_lower_value :=
                  Some (str ((kine_bound_percentiles n (kine_samples_n ss)).1.2
                             - (kine_bound_percentiles n (kine_samples_n ss)).1.1));
                q_e_upper_value :=
                  Some (str ((kine_bound_percentiles n (kine_samples_n ss)).2
                             - (kine_bound_percentiles n (kine_samples_n ss)).1.2));
                q_u_value := None;
                q_upperlimit := Some upperlimit;
                q_lowerlimit := None; q_source := source; q_derived := true;
                q_kind := [] |}
        :: rest.
Proof.
  intros Hv Hn. unfold store_outcomes.
  rewrite Eng_bind_unfold. unfold lift. rewrite Hv. cbn [or_raise].
  rewrite Eng_bind_unfold, Hn.
  destruct (kine_bound_percentiles n (kine_samples_n ss)) as [[lo med] hi].
  rewrite Eng_bind_unfold. unfold entry_add_self_source.
  destruct (add_self_source name (w_catalog w)) as [source c].
  exists source. eexists.
  destruct (haveparallax (inputs ss));
    unfold mbind, Eng_bind, entry_add_quantity, mret, Eng_ret, emit; cbn;
    rewrite <- !app_assoc; eexists; reflexivity.
Qed.

(** What [load_chain] binds (lines 64-66): the two lists of the policy are
    columns 5 and 6, in this order, of the table read; the world is left
    as it was. *)
Lemma load_chain_Ok (w w' : World) (policy : Policy) :
  load_chain w = (Ok policy, w') →
  w' = w
  ∧ ∃ chain VESCSOLAR ALPHA,
      genfromtxt (w_catalog w) = Ok chain
      ∧ column 5 chain = Ok VESCSOLAR ∧ column 6 chain = Ok ALPHA
      ∧ policy = Williams2017 VESCSOLAR ALPHA.
Proof.
  unfold load_chain. intros H. injection H as H <-. split; [reflexivity|].
  apply result_bind_Ok in H as (chain & Hc & H).
  apply result_bind_Ok in H as (V & H5 & H).
  apply result_bind_Ok in H as (A & H6 & H).
  injection H as <-. exists chain, V, A. repeat split; assumption.
Qed.

(** C9: in a run under the method williams2017 the policy bound before
    the loop holds columns 5 and 6 of the table [np.genfromtxt] returns,
    and the escape velocity of sample [i] of a star is the value in column
    5 of the table row drawn for [i], times
    [(r_i / R_i) ^ (- alpha_i / 2)], with [alpha_i] the value in column 6 of
    the same row, [r_i] the galactocentric radius of the sample and [R_i]
    the solar radius sampled at the same index.  The rows are drawn from
    the generator seeded with the name. *)
Theorem chain_escape_velocity Tm (w w' : World) (policy : Policy)
    name e st ss st' :
  resolve_policy "williams2017" w = (Ok policy, w') →
  star_samples Tm policy name e st = (Ok ss, st') →
  ∃ chain VESCSOLAR ALPHA vesc,
    genfromtxt (w_catalog w) = Ok chain
    ∧ policy = Williams2017 VESCSOLAR ALPHA
    ∧ kine_vesc ss = Some vesc ∧ length vesc = kine_samples_n ss
    ∧ ∀ i, (i < kine_samples_n ss)%nat →
        ∃ c row v a r s,
          (np_random_choice (length chain) (kine_samples_n ss)
             (np_random_seed (cyclic_product name mod 2 ^ 32)%Z)).1 !! i
          = Some c
          ∧ chain !! c = Some row
          ∧ row !! 5%nat = Some v ∧ row !! 6%nat = Some a
          ∧ VESCSOLAR !! c = Some v ∧ ALPHA !! c = Some a
          ∧ kine_galrad ss !! i = Some r
          ∧ kine_samples_solar ss !! i = Some s
          ∧ vesc !! i = Some (v * np_power (r / s0 s) (- a / 2)).
Proof.
  change (resolve_policy "williams2017") with load_chain.
  intros Hload Hrun.
  apply load_chain_Ok in Hload as (_ & chain & V & A & Hc & H5 & H6 & ->).
  destruct (williams_escape_velocity_rows _ _ _ _ _ _ _ _ _ H5 H6 Hrun)
    as (vesc & Hv & Lv & Hrows).
  exists chain, V, A, vesc.
  split; [exact Hc|]. split; [reflexivity|]. split; [exact Hv|].
  split; [exact Lv|]. intros i Hi.
  destruct (Hrows i Hi) as (c & row & v & a & r & s & Hch & Hrow & Hr5 & Hr6
                            & HV & HA & Hg & Hs & Hvi).
  exists c, row, v, a, r, s. repeat split; assumption.
Qed.

Lemma T_Ok : ∃ Tm, T = Ok Tm.
Proof. eexists. reflexivity. Qed.

Lemma star_samples_unresolved Tm name e st ss st' :
  star_samples Tm Unresolved name e st = (Ok ss, st') → kine_vesc ss = None.
Proof.
  intros H. apply star_samples_Ok in H
    as (a & ks & st1 & solar & st2 & _ & _ & _ & _ & _ & _ & _ & _ & _ & H).
  unfold escape_velocity, mret, Rnd_ret in H. congruence.
Qed.

(** Without a resolved policy a step never writes: it passes the entry
    over, logs that the key was not found, or ends in an exception. *)
Lemma star_step_unresolved Tm (oname : string) (w : World) :
  ∃ evs, w_trace (star_step Tm Unresolved oname w).2 = w_trace w ++ evs
         ∧ Forall (fun ev => is_write ev = false) evs.
Proof.
  unfold star_step. destruct (add_entry oname (w_catalog w)) as [[name|] c].
  - exists []. rewrite app_nil_r. split; [|constructor].
    rewrite Eng_bind_unfold. unfold lift. cbn.
    destruct (entries c name) as [e|]; cbn; [|reflexivity].
    destruct (lacks_data e); [reflexivity|].
    rewrite Eng_bind_unfold. unfold in_rnd. cbn.
    destruct (star_samples Tm Unresolved name e (w_rng w)) as [[ss|err] st']
      eqn:Hrun; [|reflexivity].
    apply star_samples_unresolved in Hrun.
    unfold store_outcomes. rewrite Eng_bind_unfold. unfold lift.
    rewrite Hrun. reflexivity.
  - exists [Warning (not_found_message oname)]. split; [reflexivity|].
    repeat constructor.
Qed.

Lemma star_loop_unresolved Tm (keys : list string) (w : World) :
  ∃ evs, w_trace (star_loop Tm Unresolved keys w).2 = w_trace w ++ evs
         ∧ Forall (fun ev => is_write ev = false) evs.
Proof.
  revert w. induction keys as [|oname keys IH]; intros w.
  - exists []. rewrite app_nil_r. split; [reflexivity | constructor].
  - cbn [star_loop]. rewrite Eng_bind_unfold.
    destruct (star_step_unresolved Tm oname w) as (evs1 & H1 & F1).
    destruct (star_step Tm Unresolved oname w) as [[[]|err] w1]; cbn in H1.
    + destruct (IH w1) as (evs2 & H2 & F2).
      exists (evs1 ++ evs2). rewrite H2, H1, app_assoc.
      split; [reflexivity | now apply Forall_app].
    + exists evs1. split; assumption.
Qed.

(** C3 (amended): with a method that is neither [galpy] nor [williams2017]
    the task logs the warning and then runs the loop over the keys with no
    policy bound; whatever the catalogue holds, nothing is written to any
    entry. *)
Theorem unresolved_policy_writes_nothing (vescmethod : string) (w : World) :
  vescmethod ≠ "galpy"%string → vescmethod ≠ "williams2017"%string →
  (∃ Tm,
     do_boundprobability vescmethod w
     = (_ ← star_loop Tm Unresolved (entries_keys (w_catalog w));
        catalog_journal_entries) (emit (Warning vescmethod_message) w))
  ∧ ∃ rest,
      w_trace (do_boundprobability vescmethod w).2
      = w_trace w ++ Warning vescmethod_message :: rest
      ∧ Forall (fun ev => is_write ev = false) rest.
Proof.
  intros Hg Hw. destruct T_Ok as [Tm HT].
  assert (Hrun : do_boundprobability vescmethod w
     = (_ ← star_loop Tm Unresolved (entries_keys (w_catalog w));
        catalog_journal_entries) (emit (Warning vescmethod_message) w)).
  { unfold do_boundprobability, resolve_policy.
    apply String.eqb_neq in Hg, Hw. rewrite Hg, Hw.
    rewrite Eng_bind_unfold. unfold lift. rewrite HT.
    reflexivity. }
  split; [exists Tm; exact Hrun|]. rewrite Hrun, Eng_bind_unfold.
  destruct (star_loop_unresolved Tm (entries_keys (w_catalog w))
              (emit (Warning vescmethod_message) w)) as (evs & H & F).
  destruct (star_loop Tm Unresolved _ _) as [[[]|err] w1]; cbn in H |- *.
  - exists (evs ++ [JournalEntries]). rewrite H, <- !app_assoc.
    split; [reflexivity|]. apply Forall_app. split; [exact F|].
    repeat constructor.
  - exists evs. rewrite H, <- app_assoc. split; [reflexivity | exact F].
Qed.

End EngineProperties.

(** * Further properties *)

(** ** The selector as a minimum *)

Section SelectorMore.
Context {libs : PyLibs}.

Lemma Qlt_bool_true (x y : Q) : Qlt_bool x y = true ↔ x < y.
Proof.
  unfold Qlt_bool. rewrite negb_true_iff. split.
  - intros H. apply Qnot_le_lt. intros Hle. apply Qle_bool_iff in Hle. congruence.
  - intros H. destruct (Qle_bool y x) eqn:E; [|reflexivity].
    apply Qle_bool_iff in E. exfalso. exact (Qlt_not_le _ _ H E).
Qed.

Lemma Qlt_bool_false (x y : Q) : Qlt_bool x y = false ↔ y <= x.
Proof.
  unfold Qlt_bool. rewrite negb_false_iff. apply Qle_bool_iff.
Qed.

Lemma argmin_from_spec (l : list Q) (best_i : nat) (best : Q) (i : nat) :
  (argmin_from best_i best i l = best_i
   ∧ ∀ j x, l !! j = Some x → best <= x)
  ∨ (∃ j m, argmin_from best_i best i l = (i + j)%nat ∧ l !! j = Some m
            ∧ m < best
            ∧ ∀ j' x, l !! j' = Some x → m <= x ∧ ((j' < j)%nat → m < x)).
Proof.
  revert best_i best i. induction l as [|x l IH]; intros best_i best i; cbn.
  - left. split; [reflexivity|]. intros j y Hj. discriminate Hj.
  - destruct (Qlt_bool x best) eqn:E.
    + apply Qlt_bool_true in E. right.
      destruct (IH i x (S i)) as [[-> Hall]|(j & m & -> & Hj & Hm & Hall)].
      * exists 0%nat, x. rewrite Nat.add_0_r.
        split; [reflexivity|]. split; [reflexivity|]. split; [exact E|].
        intros [|j'] y Hy; cbn in Hy.
        -- injection Hy as <-. split; [apply Qle_refl | intros ?; exfalso; lia].
        -- split; [now apply (Hall j') | intros ?; exfalso; lia].
      * exists (S j), m. split; [lia|]. split; [exact Hj|].
        split; [now apply Qlt_trans with x|].
        intros [|j'] y Hy; cbn in Hy.
        -- injection Hy as <-. split; [now apply Qlt_le_weak | now intros _].
        -- destruct (Hall j' y Hy) as [H1 H2]. split; [exact H1|].
           intros Hlt. apply H2. lia.
    + apply Qlt_bool_false in E.
      destruct (IH best_i best (S i)) as [[-> Hall]|(j & m & -> & Hj & Hm & Hall)].
      * left. split; [reflexivity|]. intros [|j'] y Hy; cbn in Hy.
        -- now injection Hy as <-.
        -- now apply (Hall j').
      * right. exists (S j), m. split; [lia|]. split; [exact Hj|].
        split; [exact Hm|]. intros [|j'] y Hy; cbn in Hy.
        -- injection Hy as <-. split.
           ++ apply Qlt_le_weak. now apply Qlt_le_trans with best.
           ++ intros _. now apply Qlt_le_trans with best.
        -- destruct (Hall j' y Hy) as [H1 H2]. split; [exact H1|].
           intros Hlt. apply H2. lia.
Qed.

(** [np.argmin] returns the first index of a smallest element. *)
Lemma np_argmin_spec (l : list Q) (i : nat) :
  np_argmin l = Ok i →
  ∃ m, l !! i = Some m
       ∧ ∀ j x, l !! j = Some x → m <= x ∧ ((j < i)%nat → m < x).
Proof.
  destruct l as [|x l]; cbn; [discriminate|]. intros [= <-].
  destruct (argmin_from_spec l 0 x 1) as [[-> Hall]|(j & m & -> & Hj & Hm & Hall)].
  - exists x. split; [reflexivity|]. intros [|j] y Hy; cbn in Hy.
    + injection Hy as <-. split; [apply Qle_refl | intros ?; exfalso; lia].
    + split; [now apply (Hall j) | intros ?; exfalso; lia].
  - exists m. split; [exact Hj|]. intros [|j'] y Hy; cbn in Hy.
    + injection Hy as <-. split; [now apply Qlt_le_weak | now intros _].
    + destruct (Hall j' y Hy) as [H1 H2]. split; [exact H1|].
      intros Hlt. apply H2. lia.
Qed.

(** One pass of the loop body on an entry whose slot still holds the
    sentinel. *)
Lemma error_loop_step (q : Quantity) (err : list Q) (i : nat) :
  err !! i = Some 9999.9 →
  match e_value q with
  | Some e => e ← to_float e; Ok (<[i:=e]> err)
  | None =>
      match e_lower_value q, e_upper_value q with
      | Some lo, Some up =>
          lo ← to_float lo; up ← to_float up; Ok (<[i:=py_max lo up]> err)
      | _, _ => Ok err
      end
  end
  = (m ← error_metric q; Ok (<[i:=m]> err)).
Proof.
  intros Hi. unfold error_metric.
  destruct (e_value q) as [e|]; [reflexivity|].
  destruct (e_lower_value q) as [lo|], (e_upper_value q) as [up|];
    cbn -[to_float]; rewrite ?(list_insert_id _ _ _ Hi); try reflexivity.
  destruct (to_float lo); [|reflexivity]. cbn -[to_float].
  destruct (to_float up); reflexivity.
Qed.

(** The loop of lines 43-49 fills the array with the metrics of the
    entries, and raises where a metric does. *)
Lemma error_loop_metrics (P2 P1 : list Quantity) (done : list Q) :
  QUANTITY_DERIVED_eq_True = false →
  length done = length P1 →
  for_each (fun errPARAMETER i =>
      if QUANTITY_DERIVED_eq_True then Ok errPARAMETER
      else
        q ← or_raise IndexError ((P1 ++ P2) !! i);
        match e_value q with
        | Some e =>
            e ← to_float e; Ok (<[i:=e]> errPARAMETER)
        | None =>
            match e_lower_value q, e_upper_value q with
            | Some lo, Some up =>
                lo ← to_float lo; up ← to_float up;
                Ok (<[i:=py_max lo up]> errPARAMETER)
            | _, _ => Ok errPARAMETER
            end
        end) (done ++ replicate (length P2) 9999.9)
    (seq (length P1) (length P2))
  = (ms2 ← mapM error_metric P2; Ok (done ++ ms2)).
Proof.
  intros Hd. revert P1 done.
  induction P2 as [|q P2 IH]; intros P1 done Hlen; [reflexivity|].
  cbn [length seq replicate for_each mapM]. rewrite Hd.
  rewrite (list_lookup_middle P1 P2 q (length P1) eq_refl).
  cbn [or_raise mbind result_bind].
  rewrite error_loop_step
    by (rewrite <- Hlen; apply (list_lookup_middle _ _ _ _ eq_refl)).
  destruct (error_metric q) as [m|err]; [|reflexivity].
  cbn [mbind result_bind].
  rewrite <- Hlen, insert_app_r_alt, Nat.sub_diag by lia. cbn [insert list_insert].
  pose proof (IH (P1 ++ [q]) (done ++ [m])
                ltac:(rewrite !length_app; cbn; lia)) as H.
  replace (length (P1 ++ [q])) with (S (length done)) in H
    by (rewrite length_app; cbn; lia).
  rewrite <- !app_assoc in H. cbn [app] in H. rewrite Hd in H. rewrite H.
  destruct (mapM error_metric P2); cbn; [rewrite <- app_assoc|]; reflexivity.
Qed.

(** The selector is [np.argmin] over the metrics of all entries. *)
Lemma best_parameter_as_argmin (PARAMETER : list Quantity) :
  QUANTITY_DERIVED_eq_True = false →
  best_parameter PARAMETER
  = (ms ← mapM error_metric PARAMETER;
     BESTI ← np_argmin ms;
     e ← or_raise IndexError (ms !! BESTI);
     Ok (BESTI, e)).
Proof.
  intros Hd. unfold best_parameter.
  pose proof (error_loop_metrics PARAMETER [] [] Hd eq_refl) as H.
  cbn [app length] in H. cbv zeta. rewrite H.
  destruct (mapM error_metric PARAMETER); reflexivity.
Qed.

(** X1: when every error field can be read as a number, the selector
    returns an index into the list together with the metric of that entry,
    no entry has a smaller metric, and every earlier entry has a strictly
    larger one: ties go to the first entry. *)
Theorem best_parameter_first_minimum (PARAMETER : list Quantity)
    (ms : list Q) :
  QUANTITY_DERIVED_eq_True = false →
  PARAMETER ≠ [] →
  mapM error_metric PARAMETER = Ok ms →
  ∃ i m, best_parameter PARAMETER = Ok (i, m)
         ∧ (i < length PARAMETER)%nat
         ∧ ms !! i = Some m
         ∧ ∀ j x, ms !! j = Some x → m <= x ∧ ((j < i)%nat → m < x).
Proof.
  intros Hd Hne Hms. rewrite (best_parameter_as_argmin _ Hd), Hms.
  pose proof (mapM_result_length _ _ _ Hms) as Hlen.
  destruct (np_argmin ms) as [i|] eqn:Hi.
  - destruct (np_argmin_spec _ _ Hi) as (m & Hm & Hmin).
    exists i, m. unfold mbind at 1, result_bind at 1.
    unfold mbind at 1, result_bind at 1. rewrite Hi, Hm.
    split; [reflexivity|]. split; [|split; [reflexivity | exact Hmin]].
    rewrite <- Hlen. now apply lookup_lt_Some in Hm.
  - destruct ms; [|discriminate]. destruct PARAMETER; [contradiction|].
    discriminate.
Qed.

(** X2: the selector raises [ValueError] on an empty list, and an error
    field that cannot be read as a number makes it raise, also when it
    belongs to an entry that would not be selected. *)
Theorem best_parameter_failures (PARAMETER : list Quantity) (e : PyError) :
  best_parameter [] = Raise ValueError
  ∧ (QUANTITY_DERIVED_eq_True = false →
     mapM error_metric PARAMETER = Raise e →
     best_parameter PARAMETER = Raise e).
Proof.
  split.
  - unfold best_parameter. cbn. reflexivity.
  - intros Hd Hms. now rewrite (best_parameter_as_argmin _ Hd), Hms.
Qed.
End SelectorMore.

(** ** Names with the same seed *)

Lemma fold_mul_app (l1 l2 : list Z) :
  (fold_right Z.mul 1 (l1 ++ l2)
   = fold_right Z.mul 1 l1 * fold_right Z.mul 1 l2)%Z.
Proof. induction l1 as [|x l1 IH]; cbn [app fold_right]; [lia | rewrite IH; lia]. Qed.

Lemma code_product_seq (s : string) :
  fold_right Z.mul 1%Z
    (map (fun i => match String.get i s with Some c => ord c | None => 1%Z end)
       (seq 0 (String.length s)))
  = code_product s.
Proof.
  induction s as [|c s IH]; [reflexivity|].
  cbn [String.length seq map fold_right code_product String.get].
  rewrite <- seq_shift, map_map. cbn [String.get]. now rewrite IH.
Qed.

Lemma cyclic_code_period (NAME : string) (k : nat) :
  fold_right Z.mul 1%Z
    (map (cyclic_code NAME) (seq (k * String.length NAME) (String.length NAME)))
  = code_product NAME.
Proof.
  rewrite <- (code_product_seq NAME). f_equal.
  destruct (Nat.eq_dec (String.length NAME) 0%nat) as [Hn|Hn].
  { rewrite Hn. reflexivity. }
  rewrite <- (Nat.add_0_r (k * String.length NAME)) at 1.
  rewrite <- (fmap_add_seq (k * String.length NAME) 0%nat).
  change (Nat.add (k * String.length NAME) <$> seq 0 (String.length NAME))
    with (map (Nat.add (k * String.length NAME)) (seq 0 (String.length NAME))).
  rewrite map_map.
  apply map_ext_in. intros i Hi. apply in_seq in Hi.
  unfold cyclic_code.
  rewrite Nat.add_comm, Nat.Div0.mod_add, Nat.mod_small by lia. reflexivity.
Qed.

(** The product taken by [craft_seed] contains every character code at
    least twice. *)
Lemma cyclic_product_square (NAME : string) :
  ∃ rest, cyclic_product NAME
          = (code_product NAME * code_product NAME * rest)%Z.
Proof.
  unfold cyclic_product.
  replace (2 * (String.length NAME + 3))%nat
    with (String.length NAME + (String.length NAME + 6))%nat by lia.
  rewrite seq_app, map_app, fold_mul_app. cbn [Nat.add].
  rewrite seq_app, map_app, fold_mul_app.
  pose proof (cyclic_code_period NAME 0) as H0. cbn [Nat.mul] in H0.
  pose proof (cyclic_code_period NAME 1) as H1.
  rewrite Nat.mul_1_l in H1. rewrite H0, H1.
  eexists. rewrite Z.mul_assoc. reflexivity.
Qed.

Lemma craft_seed_zero (NAME : string) :
  NAME ≠ EmptyString → (2 ^ 16 | code_product NAME)%Z →
  (cyclic_product NAME mod 2 ^ 32 = 0)%Z.
Proof.
  intros _ [q Hq]. destruct (cyclic_product_square NAME) as [rest ->].
  rewrite Hq. apply Z.mod_divide; [lia|].
  exists (q * q * rest)%Z. change (2 ^ 32)%Z with (2 ^ 16 * 2 ^ 16)%Z. ring.
Qed.

Section SeedMore.
Context {rnd : Random}.

(** X3: a name whose character codes multiply to a multiple of 2^16 (four
    spaces are enough) gets the seed 0, so any two such names draw the same
    chain rows. *)
Theorem craft_seed_even_names_collide (NAME1 NAME2 : string)
    (VESCSOLAR ALPHA : list Q) (NSAMP : nat) (st1 st2 : rng_state) :
  NAME1 ≠ EmptyString → NAME2 ≠ EmptyString →
  (2 ^ 16 | code_product NAME1)%Z → (2 ^ 16 | code_product NAME2)%Z →
  craft_seed NAME1 = Ok 0%Z ∧ craft_seed NAME2 = Ok 0%Z
  ∧ vescsolar_sampler VESCSOLAR ALPHA NAME1 NSAMP st1
    = vescsolar_sampler VESCSOLAR ALPHA NAME2 NSAMP st2.
Proof.
  intros Hn1 Hn2 Hd1 Hd2.
  rewrite !craft_seed_nonempty by assumption.
  rewrite !vescsolar_sampler_seeded by assumption.
  rewrite !craft_seed_zero by assumption. repeat split.
Qed.
End SeedMore.


(** ** The frame transform *)

Ltac mat3_unfold :=
  cbv [orthogonal mat3_eq vec3_eq mat3_mul mat3_vec mat3_transpose vec3_dot
       vec3_add vec3_norm2 mat3_det mat3_id x0 x1 x2 r0 r1 r2
       Qpower Qpower_positive pow_pos] in *;
  change (-1)%Q with (- (1))%Q in *.

Lemma orthogonal_mul (M N : mat3) :
  orthogonal M → orthogonal N → orthogonal (mat3_mul M N).
Proof.
  destruct M as [[m00 m01 m02] [m10 m11 m12] [m20 m21 m22]].
  destruct N as [[n00 n01 n02] [n10 n11 n12] [n20 n21 n22]].
  mat3_unfold.
  intros ((A1&A2&A3)&(A4&A5&A6)&(A7&A8&A9)) ((B1&B2&B3)&(B4&B5&B6)&(B7&B8&B9)).
  repeat split; nsatz.
Qed.

Lemma mat3_det_mul (M N : mat3) :
  mat3_det (mat3_mul M N) == mat3_det M * mat3_det N.
Proof.
  destruct M as [[m00 m01 m02] [m10 m11 m12] [m20 m21 m22]].
  destruct N as [[n00 n01 n02] [n10 n11 n12] [n20 n21 n22]].
  mat3_unfold. ring.
Qed.

Lemma orthogonal_norm (M : mat3) (v : vec3) :
  orthogonal M →
  vec3_norm2 (mat3_vec (mat3_transpose M) v) == vec3_norm2 v.
Proof.
  destruct M as [[m00 m01 m02] [m10 m11 m12] [m20 m21 m22]].
  destruct v as [a b c]. mat3_unfold.
  intros ((A1&A2&A3)&(A4&A5&A6)&(A7&A8&A9)). nsatz.
Qed.

Lemma orthogonal_cancel (M : mat3) (v : vec3) :
  orthogonal M →
  let d := mat3_vec (mat3_transpose M) v in
  vec3_eq (vec3_add v (mat3_vec M (V3 (-1 * x0 d) (-1 * x1 d) (-1 * x2 d))))
    (V3 0 0 0).
Proof.
  destruct M as [[m00 m01 m02] [m10 m11 m12] [m20 m21 m22]].
  destruct v as [a b c]. cbv zeta. mat3_unfold.
  intros ((A1&A2&A3)&(A4&A5&A6)&(A7&A8&A9)). repeat split; nsatz.
Qed.

Section FrameProperties.
Context {libs : PyLibs}.
Hypothesis pythagoras : ∀ x, cos x * cos x + sin x * sin x == 1.

Lemma T_1_orthogonal (a : Q) : orthogonal (T_1 a) ∧ mat3_det (T_1 a) == - (1).
Proof.
  pose proof (pythagoras a) as H. unfold T_1. revert H.
  generalize (cos a) (sin a). intros c s H. mat3_unfold.
  repeat split; nsatz.
Qed.

Lemma T_2_orthogonal (a : Q) : orthogonal (T_2 a) ∧ mat3_det (T_2 a) == 1.
Proof.
  pose proof (pythagoras a) as H. unfold T_2. revert H.
  generalize (cos a) (sin a). intros c s H. mat3_unfold.
  repeat split; nsatz.
Qed.

Lemma T_3_orthogonal (a : Q) : orthogonal (T_3 a) ∧ mat3_det (T_3 a) == - (1).
Proof.
  pose proof (pythagoras a) as H. unfold T_3. revert H.
  generalize (cos a) (sin a). intros c s H. mat3_unfold.
  repeat split; nsatz.
Qed.

Lemma frame_A_orthogonal (a : Angles) : orthogonal (frame_A a).
Proof.
  pose proof (pythagoras (a_ra a)) as H1.
  pose proof (pythagoras (a_dec a)) as H2. unfold frame_A. revert H1 H2.
  generalize (cos (a_ra a)) (sin (a_ra a)) (cos (a_dec a)) (sin (a_dec a)).
  intros cr sr cd sd H1 H2. cbv zeta. mat3_unfold.
  repeat split; nsatz.
Qed.

Lemma reflex_frame_orthogonal (Tm : mat3) (a : Angles) :
  T = Ok Tm → orthogonal (mat3_mul Tm (frame_A a)).
Proof.
  unfold T, frame_angles. change (Qeq_bool epoch 2000) with true.
  cbn [or_raise mbind result_bind]. intros [= <-].
  apply orthogonal_mul; [|apply frame_A_orthogonal].
  apply orthogonal_mul; [apply orthogonal_mul|].
  - apply T_1_orthogonal.
  - apply T_2_orthogonal.
  - apply T_3_orthogonal.
Qed.

(** X4: with a sine and cosine that satisfy the Pythagorean identity, the
    frame transform [T] is a rotation: its rows are orthonormal and its
    determinant is 1.  Of its three factors, [T_1] and [T_3] have
    determinant -1 and [T_2] has determinant 1, at every angle. *)
Theorem frame_transform_rotation (Tm : mat3) :
  T = Ok Tm →
  orthogonal Tm ∧ mat3_det Tm == 1
  ∧ ∀ a, mat3_det (T_1 a) == -1 ∧ mat3_det (T_2 a) == 1
         ∧ mat3_det (T_3 a) == -1.
Proof.
  unfold T, frame_angles. change (Qeq_bool epoch 2000) with true.
  cbn [or_raise mbind result_bind]. intros [= <-].
  set (a1 := 122.932 / 180 * pi). set (a2 := 27.12825 / 180 * pi).
  set (a3 := 192.85948 / 180 * pi).
  destruct (T_1_orthogonal a1) as [O1 D1], (T_2_orthogonal a2) as [O2 D2],
    (T_3_orthogonal a3) as [O3 D3].
  split; [apply orthogonal_mul; [apply orthogonal_mul|]; assumption|].
  split; [rewrite 2!mat3_det_mul, D1, D2, D3; reflexivity|].
  intros a. split; [exact (proj2 (T_1_orthogonal a))|].
  split; [exact (proj2 (T_2_orthogonal a)) | exact (proj2 (T_3_orthogonal a))].
Qed.
End FrameProperties.

(** ** More on the samples of a star *)

Section SampleMore.
Context {libs : PyLibs} {rnd : Random} {utils : Utils}.

(** How a successful run of [star_samples] obtains the total
    velocities. *)
Lemma star_samples_vgrf Tm policy name e st ss st' :
  star_samples Tm policy name e st = (Ok ss, st') →
  ∃ a vhel,
    sky_angles e = Ok a
    ∧ np_zip_with vec3_add (vhel_view <$> kine_samples_solar ss)
        ((fun r => mat3_vec (mat3_mul Tm (frame_A a))
                     (V3 (c3 r) (c1 r) (c2 r)))
           <$> kine_samples_corrected ss) = Ok vhel
    ∧ kine_vgrf ss
      = (fun v => np_sqrt (x0 v ^ 2 + x1 v ^ 2 + x2 v ^ 2)) <$> vhel.
Proof.
  unfold star_samples. intros H.
  apply Rnd_bind_Ok in H as (a & s & Ha & H). apply pure_Ok in Ha as [Ha ->].
  apply Rnd_bind_Ok in H as (inp & s & Hi & H). apply pure_Ok in Hi as [Hi ->].
  apply Rnd_bind_Ok in H as (kine_samples & st1 & Hk & H).
  apply Rnd_bind_Ok in H as (solar & st2 & Hs & H).
  apply Rnd_bind_Ok in H as (corrected & s & Hc & H).
  apply pure_Ok in Hc as [Hc ->].
  apply Rnd_bind_Ok in H as (vhel & s & Hv & H). apply pure_Ok in Hv as [Hv ->].
  apply Rnd_bind_Ok in H as (galrad & s & Hg & H).
  apply pure_Ok in Hg as [Hg ->].
  apply Rnd_bind_Ok in H as (vesc & st3 & He & H).
  injection H as <- <-. cbn.
  exists a, vhel. repeat split; assumption.
Qed.

(** All sample arrays of a successful run have one entry per sample. *)
Lemma star_samples_lengths Tm policy name e st ss st' :
  star_samples Tm policy name e st = (Ok ss, st') →
  length (kine_samples_corrected ss) = kine_samples_n ss
  ∧ length (kine_samples_solar ss) = kine_samples_n ss
  ∧ length (kine_D ss) = kine_samples_n ss
  ∧ length (kine_vgrf ss) = kine_samples_n ss
  ∧ length (kine_galrad ss) = kine_samples_n ss.
Proof.
  intros Hrun. pose proof Hrun as Hrun'.
  apply star_samples_vgrf in Hrun' as (a' & vhel & _ & Hv & Hvg).
  apply star_samples_Ok in Hrun
    as (a & ks & st1 & solar & st2 & _ & _ & _ & Hn & _ & Hsol & HD & Hsub
        & Hgal & _).
  apply reflex_substitution_length in Hsub. rewrite length_fmap in Hsub.
  apply np_zip_with_Ok in Hgal as [Lsc Hgal].
  apply np_zip_with_Ok in Hv as [Lv ->].
  rewrite Hvg, HD, Hgal, !length_fmap, !length_zip_with, !length_fmap.
  lia.
Qed.

Section Rotation.
Hypothesis pythagoras : ∀ x, cos x * cos x + sin x * sin x == 1.

(** X5: with a sine and cosine that satisfy the Pythagorean identity, and
    in exact arithmetic, the solar reflex vector of every sample has the
    squared length of the solar velocity it is computed from (U, V plus the
    disc speed, W): the change of frame keeps the speed. *)
Theorem solar_reflex_keeps_speed Tm policy name e st ss st' :
  T = Ok Tm →
  star_samples Tm policy name e st = (Ok ss, st') →
  ∀ i, (i < kine_samples_n ss)%nat →
    ∃ d s, kine_D ss !! i = Some d ∧ kine_samples_solar ss !! i = Some s
           ∧ vec3_norm2 d == s2 s ^ 2 + s3 s ^ 2 + s4 s ^ 2.
Proof.
  intros HT Hrun i Hi.
  destruct (star_samples_lengths _ _ _ _ _ _ _ Hrun) as (_ & Ls & _).
  apply star_samples_Ok in Hrun
    as (a & ks & st1 & solar & st2 & _ & _ & _ & _ & _ & _ & HD & _).
  destruct (lookup_lt_is_Some_2 (kine_samples_solar ss) i) as [s Hs]; [lia|].
  exists (mat3_vec (mat3_transpose (mat3_mul Tm (frame_A a))) (vhel_view s)), s.
  split; [|split; [exact Hs|]].
  - rewrite HD, !list_lookup_fmap, Hs. reflexivity.
  - rewrite orthogonal_norm; [reflexivity|].
    apply (reflex_frame_orthogonal pythagoras Tm a HT).
Qed.

(** X6: with a sine and cosine that satisfy the Pythagorean identity, and
    in exact arithmetic, the substitution cancels the solar velocity of a
    star with neither proper motions nor a radial velocity: the total
    velocity of every sample is the square root of a quantity equal to
    zero.  (Rounding is outside the model: in the program's doubles the
    quantity is a small residue, not zero.) *)
Theorem star_without_velocities_at_rest Tm policy name e st ss st' :
  T = Ok Tm →
  star_samples Tm policy name e st = (Ok ss, st') →
  havepropermotions (inputs ss) = false →
  havevelocities (inputs ss) = false →
  ∀ i, (i < kine_samples_n ss)%nat →
    ∃ q, kine_vgrf ss !! i = Some (np_sqrt q) ∧ q == 0.
Proof.
  intros HT Hrun Hpm Hvel i Hi.
  destruct (star_samples_lengths _ _ _ _ _ _ _ Hrun) as (Lc & Ls & LD & Lv & _).
  pose proof Hrun as Hrun'.
  apply star_samples_vgrf in Hrun' as (a' & vhel & Ha' & Hv & Hvg).
  apply star_samples_Ok in Hrun
    as (a & ks & st1 & solar & st2 & Ha & _ & _ & _ & _ & _ & HD & Hsub & _).
  assert (a' = a) as -> by congruence.
  rewrite Hpm, Hvel in Hsub.
  apply reflex_substitution_no_propermotions in Hsub as (_ & _ & Hrows).
  apply np_zip_with_Ok in Hv as [_ ->].
  destruct (lookup_lt_is_Some_2 (kine_samples_solar ss) i) as [s Hs]; [lia|].
  destruct (lookup_lt_is_Some_2 (kine_samples_corrected ss) i) as [r Hr];
    [lia|].
  set (B := mat3_mul Tm (frame_A a)) in *.
  assert (Hd : kine_D ss !! i
               = Some (mat3_vec (mat3_transpose B) (vhel_view s)))
    by (rewrite HD, !list_lookup_fmap, Hs; reflexivity).
  destruct (Hrows i r _ Hr Hd) as (E1 & E2 & E3). specialize (E3 eq_refl).
  assert (HB : orthogonal B).
  { apply (reflex_frame_orthogonal pythagoras Tm a HT). }
  pose proof (orthogonal_cancel B (vhel_view s) HB) as Hz. cbv zeta in Hz.
  rewrite <- E1, <- E2, <- E3 in Hz.
  eexists. split.
  - rewrite Hvg, list_lookup_fmap, lookup_zip_with, !list_lookup_fmap, Hs, Hr.
    reflexivity.
  - destruct Hz as (Z0 & Z1 & Z2). cbn [x0 x1 x2] in Z0, Z1, Z2.
    rewrite Z0, Z1, Z2. reflexivity.
Qed.
End Rotation.
Lemma escape_velocity_galpy_Ok name n (galrad : list Q) (solar : list row5)
    st vesc st' :
  escape_velocity Galpy name n galrad solar st = (Ok vesc, st') →
  st' = st ∧ length galrad = length solar
  ∧ vesc = Some (zip_with (fun r s => galpy_vesc r * s1 s) galrad solar).
Proof.
  cbn [escape_velocity]. intros H.
  apply Rnd_bind_Ok in H as (v & s & Hv & H).
  apply pure_Ok in Hv as [Hv ->]. injection H as <- <-.
  apply np_zip_with_Ok in Hv as [L ->]. repeat split. exact L.
Qed.

(** X7: under the potential-model policy the escape velocity of sample [i]
    is the model's escape velocity at the galactocentric radius of the
    sample times the disc speed sampled at the same index, and the policy
    draws nothing from the random generator: the state left behind is the
    one the solar motion sampler left. *)
Theorem galpy_escape_velocity Tm name e st ss st' :
  star_samples Tm Galpy name e st = (Ok ss, st') →
  ∃ vesc,
    kine_vesc ss = Some vesc ∧ length vesc = kine_samples_n ss
    ∧ (∀ i, (i < kine_samples_n ss)%nat →
         ∃ r s, kine_galrad ss !! i = Some r
                ∧ kine_samples_solar ss !! i = Some s
                ∧ vesc !! i = Some (galpy_vesc r * s1 s))
    ∧ ∃ samples st1 solar,
        kinematic_sampler name (kine_values (inputs ss))
          (kine_errors (inputs ss)) (kine_corr (inputs ss))
          (kine_L (inputs ss)) (kine_k (inputs ss)) st = (Ok samples, st1)
        ∧ solarmotion_sampler name (length samples) st1 = (Ok solar, st').
Proof.
  intros Hrun.
  destruct (star_samples_lengths _ _ _ _ _ _ _ Hrun) as (_ & Ls & _ & _ & Lg).
  apply star_samples_Ok in Hrun
    as (a & ks & st1 & solar & st2 & _ & _ & Hk & _ & Hs & _ & _ & _ & _
        & Hesc).
  apply escape_velocity_galpy_Ok in Hesc as (-> & _ & Hv).
  exists (zip_with (fun r s => galpy_vesc r * s1 s) (kine_galrad ss)
            (kine_samples_solar ss)).
  split; [exact Hv|]. split; [rewrite length_zip_with; lia|].
  split; [|eauto 6].
  intros i Hi.
  destruct (lookup_lt_is_Some_2 (kine_galrad ss) i) as [r Hr]; [lia|].
  destruct (lookup_lt_is_Some_2 (kine_samples_solar ss) i) as [s Hsi]; [lia|].
  exists r, s. split; [exact Hr|]. split; [exact Hsi|].
  rewrite lookup_zip_with, Hr, Hsi. reflexivity.
Qed.

Lemma count_bound_le (vesc vgrf : list Q) (n : nat) :
  count_bound vesc vgrf = Ok n → (n ≤ length vgrf)%nat.
Proof.
  unfold count_bound. intros H. apply result_bind_Ok in H as (l & Hl & H).
  injection H as <-. apply np_zip_with_Ok in Hl as [Hlen ->].
  pose proof (List.filter_length id
    (zip_with (fun vesc vgrf => Qlt_bool vgrf vesc) vesc vgrf)) as H.
  rewrite length_zip_with in H. lia.
Qed.

(** With a resolved policy the escape velocities are bound, one per
    sample, and the count of line 264 is defined. *)
Lemma star_bound_count Tm policy name e st ss st' :
  policy ≠ Unresolved →
  star_samples Tm policy name e st = (Ok ss, st') →
  ∃ vesc n,
    kine_vesc ss = Some vesc ∧ length vesc = kine_samples_n ss
    ∧ count_bound vesc (kine_vgrf ss) = Ok n
    ∧ (n ≤ kine_samples_n ss)%nat.
Proof.
  intros Hpol Hrun.
  destruct (star_samples_lengths _ _ _ _ _ _ _ Hrun) as (_ & Ls & _ & Lv & Lg).
  assert (Hvesc : ∃ vesc, kine_vesc ss = Some vesc
                          ∧ length vesc = kine_samples_n ss).
  { apply star_samples_Ok in Hrun
      as (a & ks & st1 & solar & st2 & _ & _ & _ & Hn & _ & _ & _ & _ & _
          & Hesc).
    destruct policy as [|V A|]; [| |contradiction].
    - apply escape_velocity_galpy_Ok in Hesc as (_ & _ & Hv).
      eexists. split; [exact Hv|]. rewrite length_zip_with. lia.
    - apply escape_velocity_williams_Ok in Hesc
        as (v & ch & Hv & _ & L & _).
      exists v. split; [exact Hv | lia]. }
  destruct Hvesc as (vesc & Hv & Lvesc).
  assert (Hc : ∃ n, count_bound vesc (kine_vgrf ss) = Ok n).
  { unfold count_bound. rewrite np_zip_with_same_length by lia. cbn. eauto. }
  destruct Hc as [n Hn]. exists vesc, n.
  pose proof (count_bound_le _ _ _ Hn) as Hle. rewrite Lv in Hle.
  repeat split; assumption.
Qed.

(** X8: for a star sampled under a resolved policy the count of bound
    samples is defined and at most the number of samples, so both shape
    parameters passed to [beta.ppf] are at least 0.5 and they add up to the
    number of samples plus one. *)
Theorem bound_count_within_samples Tm policy name e st ss st' :
  policy ≠ Unresolved →
  star_samples Tm policy name e st = (Ok ss, st') →
  ∃ vesc n,
    kine_vesc ss = Some vesc
    ∧ count_bound vesc (kine_vgrf ss) = Ok n
    ∧ (n ≤ kine_samples_n ss)%nat
    ∧ let a := inject_Z (Z.of_nat n) + 0.5 in
      let b := inject_Z (Z.of_nat (kine_samples_n ss) - Z.of_nat n) + 0.5 in
      kine_bound_percentiles n (kine_samples_n ss)
      = (beta_ppf (confidenceintervalcoverage / 2) a b, beta_ppf 0.5 a b,
         beta_ppf (1 - confidenceintervalcoverage / 2) a b)
      ∧ 0.5 <= a ∧ 0.5 <= b
      ∧ a + b == inject_Z (Z.of_nat (kine_samples_n ss)) + 1.
Proof.
  intros Hpol Hrun.
  destruct (star_bound_count _ _ _ _ _ _ _ Hpol Hrun)
    as (vesc & n & Hv & _ & Hn & Hle).
  exists vesc, n.
  split; [exact Hv|]. split; [exact Hn|]. split; [exact Hle|].
  cbv zeta. split; [reflexivity|].
  assert (Hz : ∀ z, (0 ≤ z)%Z → 0.5 <= inject_Z z + 0.5).
  { intros z Hz. assert (H : 0 <= inject_Z z)
      by (change 0 with (inject_Z 0); rewrite <- Zle_Qle; exact Hz).
    revert H. generalize (inject_Z z). clear. intros x Hx. lra. }
  split; [apply Hz; lia|]. split; [apply Hz; lia|].
  unfold Z.sub. rewrite inject_Z_plus, inject_Z_opp. ring.
Qed.
End SampleMore.

(** ** The kinematic inputs *)

Section InputProperties.
Context {libs : PyLibs}.

Lemma key_in_list_false (l : list Quantity) : key_in_list l = false.
Proof. unfold key_in_list. induction l; [reflexivity | exact IHl]. Qed.

Lemma for_each_invariant {S A} (P : S → Prop) (body : S → A → result S)
    (l : list A) (s s' : S) :
  (∀ s a s', P s → body s a = Ok s' → P s') →
  P s → for_each body s l = Ok s' → P s'.
Proof.
  intros Hbody. revert s. induction l as [|a l IH]; intros s Hs; cbn.
  - now intros [= <-].
  - intros H. apply result_bind_Ok in H as (s1 & H1 & H).
    exact (IH s1 (Hbody _ _ _ Hs H1) H).
Qed.

Lemma parallax_inputs_Ok e vals errs corr hp vals' errs' corr' :
  parallax_inputs e vals errs corr = Ok (hp, vals', errs', corr') →
  hp = has (e PARALLAX) ∧ corr' = corr
  ∧ ((e PARALLAX = None ∧ vals' = vals ∧ errs' = errs)
     ∨ (has (e PARALLAX) = true
        ∧ ∃ v ev, vals' = <[0%nat:=v]> vals ∧ errs' = <[0%nat:=ev]> errs)).
Proof.
  unfold parallax_inputs. destruct (e PARALLAX) as [parallax|].
  - rewrite key_in_list_false. intros H.
    apply result_bind_Ok in H as (q & _ & H).
    apply result_bind_Ok in H as (v & _ & H).
    apply result_bind_Ok in H as (fv & _ & H).
    apply result_bind_Ok in H as (q' & _ & H).
    apply result_bind_Ok in H as (ev & _ & H).
    apply result_bind_Ok in H as (fev & _ & H).
    cbn in H. injection H as <- <- <- <-.
    split; [reflexivity|]. split; [reflexivity|]. right.
    split; [reflexivity|]. eauto.
  - intros [= <- <- <- <-]. split; [reflexivity|]. split; [reflexivity|].
    left. repeat split.
Qed.

Lemma propermotion_inputs_Ok e vals errs corr hp vals' errs' corr' :
  propermotion_inputs e vals errs corr = Ok (hp, vals', errs', corr') →
  hp = has (e PROPER_MOTION_RA) && has (e PROPER_MOTION_DEC)
  ∧ ((hp = false ∧ vals' = vals ∧ errs' = errs ∧ corr' = corr)
     ∨ (hp = true
        ∧ (∃ v1 v2 e1 e2,
             vals' = <[2%nat:=v2]> (<[1%nat:=v1]> vals)
             ∧ errs' = <[2%nat:=e2]> (<[1%nat:=e1]> errs))
        ∧ ∀ c, corr = corr_shape c → ∃ c', corr' = corr_shape c')).
Proof.
  unfold propermotion_inputs.
  destruct (e PROPER_MOTION_RA) as [pmra|], (e PROPER_MOTION_DEC) as [pmdec|];
    try (intros [= <- <- <- <-]; split; [reflexivity | left; eauto]).
  intros H.
  apply result_bind_Ok in H as (best & _ & H).
  apply result_bind_Ok in H as (qra & _ & H).
  apply result_bind_Ok in H as (v & _ & H).
  apply result_bind_Ok in H as (v1 & _ & H).
  apply result_bind_Ok in H as (qdec & _ & H).
  apply result_bind_Ok in H as (v' & _ & H).
  apply result_bind_Ok in H as (v2 & _ & H).
  apply result_bind_Ok in H as (errs1 & Herr & H).
  apply result_bind_Ok in H as (corr1 & Hcorr & H).
  cbn in H. injection H as <- <- <- <-.
  split; [reflexivity|]. right. split; [reflexivity|]. split.
  - exists v1, v2.
    destruct (e_value qra) as [era|], (e_value qdec) as [edec|];
      try (injection Herr as <-; eauto).
    apply result_bind_Ok in Herr as (fra & _ & Herr).
    apply result_bind_Ok in Herr as (fdec & _ & Herr).
    injection Herr as <-. eauto.
  - intros c ->.
    destruct (correlations qra) as [cra|], (correlations qdec) as [cdec|];
      try (injection Hcorr as <-; exists c; reflexivity).
    revert Hcorr.
    apply (for_each_invariant (fun M => ∃ c', M = corr_shape c')); [|eauto].
    intros M i M' [c0 ->] Hbody.
    apply result_bind_Ok in Hbody as (cq & _ & Hbody).
    destruct (String.eqb (corr_quantity cq) "propermotiondec").
    + apply result_bind_Ok in Hbody as (cq' & _ & Hbody).
      apply result_bind_Ok in Hbody as (fv & _ & Hbody).
      injection Hbody as <-. exists fv. reflexivity.
    + injection Hbody as <-. eauto.
Qed.

Lemma velocity_inputs_Ok e vals errs hv vals' errs' :
  velocity_inputs e vals errs = Ok (hv, vals', errs') →
  hv = has (e VELOCITY)
  ∧ ((e VELOCITY = None ∧ vals' = vals ∧ errs' = errs)
     ∨ (has (e VELOCITY) = true
        ∧ ∃ v3 e3, vals' = <[3%nat:=v3]> vals ∧ errs' = <[3%nat:=e3]> errs)).
Proof.
  unfold velocity_inputs. destruct (e VELOCITY) as [velocity|].
  - intros H. apply result_bind_Ok in H as ([i err] & _ & H).
    apply result_bind_Ok in H as (q & _ & H).
    apply result_bind_Ok in H as (v & _ & H).
    apply result_bind_Ok in H as (v3 & _ & H).
    cbn in H. destruct (Qlt_bool err 9999); injection H as <- <- <-;
      (split; [reflexivity | right; split; [reflexivity | eauto]]).
  - intros [= <- <- <-]. split; [reflexivity|]. left. repeat split.
Qed.

Lemma kinematic_inputs_Ok (e : Entry) (inp : KineInputs) :
  kinematic_inputs e = Ok inp →
  ∃ L0 hp vals1 errs1 corr1 hpm vals2 errs2 corr2 hv,
    parallax_inputs e (replicate 4 0) (replicate 4 9999.9) (corr_shape 0)
    = Ok (hp, vals1, errs1, corr1)
    ∧ propermotion_inputs e vals1 errs1 corr1 = Ok (hpm, vals2, errs2, corr2)
    ∧ velocity_inputs e vals2 errs2
      = Ok (hv, kine_values inp, kine_errors inp)
    ∧ lumdist_prior e L0 3 = Ok (kine_L inp, kine_k inp)
    ∧ prior_length_scale e 1.35 = Ok L0
    ∧ kine_corr inp = corr2 ∧ haveparallax inp = hp
    ∧ havepropermotions inp = hpm ∧ havevelocities inp = hv.
Proof.
  unfold kinematic_inputs. intros H.
  apply result_bind_Ok in H as (L0 & HL & H).
  apply result_bind_Ok in H as ([[[hp vals1] errs1] corr1] & H1 & H).
  apply result_bind_Ok in H as ([[[hpm vals2] errs2] corr2] & H2 & H).
  apply result_bind_Ok in H as ([[hv vals3] errs3] & H3 & H).
  apply result_bind_Ok in H as ([L k'] & H4 & H).
  injection H as <-. cbn.
  exists L0, hp, vals1, errs1, corr1, hpm, vals2, errs2, corr2, hv.
  repeat split; assumption.
Qed.

(** X9: the correlation matrix handed to the kinematic sampler is the
    identity except for the entries (1,2) and (2,1), which are equal: it is
    symmetric with unit diagonal, and the correlations of the parallax with
    the proper motions are always zero.  Without proper motions it is the
    identity. *)
Theorem kinematic_inputs_correlations (e : Entry) (inp : KineInputs) :
  kinematic_inputs e = Ok inp →
  ∃ c12, kine_corr inp = corr_shape c12
         ∧ (havepropermotions inp = false → c12 = 0).
Proof.
  intros H. apply kinematic_inputs_Ok in H
    as (L0 & hp & vals1 & errs1 & corr1 & hpm & vals2 & errs2 & corr2 & hv
        & H1 & H2 & _ & _ & _ & -> & _ & -> & _).
  apply parallax_inputs_Ok in H1 as (_ & -> & _).
  apply propermotion_inputs_Ok in H2
    as (_ & [(-> & _ & _ & ->)|(-> & _ & Hc)]).
  - exists 0. split; reflexivity.
  - destruct (Hc 0 eq_refl) as [c' ->]. exists c'.
    split; [reflexivity | discriminate].
Qed.

Lemma kinematic_inputs_flags (e : Entry) (inp : KineInputs) :
  kinematic_inputs e = Ok inp →
  haveparallax inp = has (e PARALLAX)
  ∧ havepropermotions inp
    = has (e PROPER_MOTION_RA) && has (e PROPER_MOTION_DEC)
  ∧ havevelocities inp = has (e VELOCITY).
Proof.
  intros H. apply kinematic_inputs_Ok in H
    as (L0 & hp & vals1 & errs1 & corr1 & hpm & vals2 & errs2 & corr2 & hv
        & H1 & H2 & H3 & _ & _ & _ & -> & -> & ->).
  apply parallax_inputs_Ok in H1 as (-> & _).
  apply propermotion_inputs_Ok in H2 as (-> & _).
  apply velocity_inputs_Ok in H3 as (-> & _).
  repeat split.
Qed.

(** X10: the three flags say which keys the entry has (proper motions need
    both components), values and errors have four entries, and a quantity
    that is missing is handed to the sampler as value 0 with the sentinel
    error 9999.9. *)
Theorem kinematic_inputs_missing_data (e : Entry) (inp : KineInputs) :
  kinematic_inputs e = Ok inp →
  haveparallax inp = has (e PARALLAX)
  ∧ havepropermotions inp
    = has (e PROPER_MOTION_RA) && has (e PROPER_MOTION_DEC)
  ∧ havevelocities inp = has (e VELOCITY)
  ∧ ∃ v0 v1 v2 v3 e0 e1 e2 e3,
      kine_values inp = [v0; v1; v2; v3]
      ∧ kine_errors inp = [e0; e1; e2; e3]
      ∧ (haveparallax inp = false → v0 = 0 ∧ e0 = 9999.9)
      ∧ (havepropermotions inp = false →
         v1 = 0 ∧ v2 = 0 ∧ e1 = 9999.9 ∧ e2 = 9999.9)
      ∧ (havevelocities inp = false → v3 = 0 ∧ e3 = 9999.9).
Proof.
  intros H. apply kinematic_inputs_Ok in H
    as (L0 & hp & vals1 & errs1 & corr1 & hpm & vals2 & errs2 & corr2 & hv
        & H1 & H2 & H3 & _ & _ & _ & -> & -> & ->).
  apply parallax_inputs_Ok in H1 as (-> & _ & H1).
  apply propermotion_inputs_Ok in H2 as (-> & H2).
  apply velocity_inputs_Ok in H3 as (-> & H3).
  split; [reflexivity|]. split; [reflexivity|]. split; [reflexivity|].
  destruct H1 as [(Hp & -> & ->)|(Hp & v & ev & -> & ->)];
  destruct H2 as [(Hm & -> & -> & _)|(Hm & (w1 & w2 & f1 & f2 & -> & ->) & _)];
  destruct H3 as [(Hv & -> & ->)|(Hv & w3 & f3 & -> & ->)];
    rewrite Hp, Hv, Hm; cbn;
    do 8 eexists; (split; [reflexivity|]); (split; [reflexivity|]);
    repeat split; try reflexivity; discriminate.
Qed.

(** X11: the radial velocity handed to the sampler is the one the selector
    picks, and its error is the selector's metric when that is below
    9999.0 and otherwise 0.5 times the velocity itself, so that a negative
    velocity without a usable error gets a negative error. *)
Theorem velocity_error_substitution (e : Entry) (inp : KineInputs)
    (velocity : list Quantity) (i : nat) (err : Q) :
  kinematic_inputs e = Ok inp →
  e VELOCITY = Some velocity →
  best_parameter velocity = Ok (i, err) →
  ∃ q v v3,
    velocity !! i = Some q ∧ value q = Some v ∧ float v = Some v3
    ∧ kine_values inp !! 3%nat = Some v3
    ∧ kine_errors inp !! 3%nat
      = Some (if Qlt_bool err 9999 then err else 0.5 * v3).
Proof.
  intros H He Hbest. apply kinematic_inputs_Ok in H
    as (L0 & hp & vals1 & errs1 & corr1 & hpm & vals2 & errs2 & corr2 & hv
        & H1 & H2 & H3 & _).
  apply parallax_inputs_Ok in H1 as (_ & _ & H1).
  apply propermotion_inputs_Ok in H2 as (_ & H2).
  assert (Hlen : length vals2 = 4%nat ∧ length errs2 = 4%nat).
  { destruct H1 as [(_ & -> & ->)|(_ & v & ev & -> & ->)];
    destruct H2 as [(_ & -> & -> & _)|(_ & (w1 & w2 & f1 & f2 & -> & ->) & _)];
      rewrite ?length_insert; split; reflexivity. }
  destruct Hlen as [Lv Le].
  unfold velocity_inputs in H3. rewrite He, Hbest in H3.
  cbn [mbind result_bind] in H3.
  apply result_bind_Ok in H3 as (q & Hq & H3).
  apply result_bind_Ok in H3 as (v & Hv & H3).
  apply result_bind_Ok in H3 as (v3 & Hv3 & H3).
  apply or_raise_Ok in Hq, Hv, Hv3.
  exists q, v, v3. split; [exact Hq|]. split; [exact Hv|]. split; [exact Hv3|].
  unfold errorifmissing in H3.
  destruct (Qlt_bool err 9999); injection H3 as _ <- <-;
    (split; apply list_lookup_insert_eq; lia).
Qed.

(** X12: the two proper motions handed to the sampler are the right
    ascension component the selector picks and the declination component at
    the same index; their errors are the two stored errors when both are
    present, and otherwise both are 0.5 times the respective value, also
    for the component that has an error. *)
Theorem propermotion_pairing (e : Entry) (inp : KineInputs)
    (pmra pmdec : list Quantity) (i : nat) (err : Q) :
  kinematic_inputs e = Ok inp →
  e PROPER_MOTION_RA = Some pmra → e PROPER_MOTION_DEC = Some pmdec →
  best_parameter pmra = Ok (i, err) →
  ∃ qra qdec vra vdec v1 v2,
    pmra !! i = Some qra ∧ pmdec !! i = Some qdec
    ∧ value qra = Some vra ∧ float vra = Some v1
    ∧ value qdec = Some vdec ∧ float vdec = Some v2
    ∧ kine_values inp !! 1%nat = Some v1
    ∧ kine_values inp !! 2%nat = Some v2
    ∧ match e_value qra, e_value qdec with
      | Some era, Some edec =>
          ∃ e1 e2, float era = Some e1 ∧ float edec = Some e2
                   ∧ kine_errors inp !! 1%nat = Some e1
                   ∧ kine_errors inp !! 2%nat = Some e2
      | _, _ =>
          kine_errors inp !! 1%nat = Some (0.5 * v1)
          ∧ kine_errors inp !! 2%nat = Some (0.5 * v2)
      end.
Proof.
  intros H Hra Hdec Hbest. apply kinematic_inputs_Ok in H
    as (L0 & hp & vals1 & errs1 & corr1 & hpm & vals2 & errs2 & corr2 & hv
        & H1 & H2 & H3 & _).
  apply parallax_inputs_Ok in H1 as (_ & _ & H1).
  assert (Hlen : length vals1 = 4%nat ∧ length errs1 = 4%nat).
  { destruct H1 as [(_ & -> & ->)|(_ & v & ev & -> & ->)];
      rewrite ?length_insert; split; reflexivity. }
  destruct Hlen as [Lv Le]. clear H1.
  apply velocity_inputs_Ok in H3 as (_ & H3).
  assert (Hkeep : ∀ j, (j < 3)%nat →
            kine_values inp !! j = vals2 !! j
            ∧ kine_errors inp !! j = errs2 !! j).
  { intros j Hj.
    destruct H3 as [(_ & -> & ->)|(_ & w3 & f3 & -> & ->)];
      [split; reflexivity|].
    split; apply list_lookup_insert_ne; lia. }
  destruct (Hkeep 1%nat ltac:(lia)) as [-> ->].
  destruct (Hkeep 2%nat ltac:(lia)) as [-> ->]. clear Hkeep H3.
  unfold propermotion_inputs in H2. rewrite Hra, Hdec, Hbest in H2.
  cbn [mbind result_bind fst] in H2.
  apply result_bind_Ok in H2 as (qra & Hqra & H2).
  apply result_bind_Ok in H2 as (vra & Hvra & H2).
  apply result_bind_Ok in H2 as (v1 & Hv1 & H2).
  apply result_bind_Ok in H2 as (qdec & Hqdec & H2).
  apply result_bind_Ok in H2 as (vdec & Hvdec & H2).
  apply result_bind_Ok in H2 as (v2 & Hv2 & H2).
  apply result_bind_Ok in H2 as (errs' & Herr & H2).
  apply result_bind_Ok in H2 as (corr' & _ & H2).
  injection H2 as _ <- <- _.
  apply or_raise_Ok in Hqra, Hvra, Hv1, Hqdec, Hvdec, Hv2.
  exists qra, qdec, vra, vdec, v1, v2.
  split; [exact Hqra|]. split; [exact Hqdec|]. split; [exact Hvra|].
  split; [exact Hv1|]. split; [exact Hvdec|]. split; [exact Hv2|].
  split; [rewrite list_lookup_insert_ne by lia;
          apply list_lookup_insert_eq; lia|].
  split; [apply list_lookup_insert_eq; rewrite length_insert; lia|].
  unfold errorifmissing in Herr.
  destruct (e_value qra) as [era|], (e_value qdec) as [edec|];
    try (injection Herr as <-;
         split; [rewrite list_lookup_insert_ne by lia;
                 apply list_lookup_insert_eq; lia
                | apply list_lookup_insert_eq; rewrite length_insert; lia]).
  apply result_bind_Ok in Herr as (e1 & He1 & Herr).
  apply result_bind_Ok in Herr as (e2 & He2 & Herr).
  injection Herr as <-. apply or_raise_Ok in He1, He2.
  exists e1, e2. split; [exact He1|]. split; [exact He2|].
  split; [rewrite list_lookup_insert_ne by lia;
          apply list_lookup_insert_eq; lia
         | apply list_lookup_insert_eq; rewrite length_insert; lia].
Qed.

(** A parallax whose first measurement has no symmetric error. *)
Lemma kinematic_inputs_parallax_KeyError (e : Entry) (parallax : list Quantity)
    (q : Quantity) (v : string) (x L0 : Q) :
  prior_length_scale e 1.35 = Ok L0 →
  e PARALLAX = Some parallax → parallax !! 0%nat = Some q →
  value q = Some v → float v = Some x → e_value q = None →
  kinematic_inputs e = Raise KeyError.
Proof.
  intros HL Hp Hq Hv Hx He. unfold kinematic_inputs. cbv zeta.
  rewrite HL. cbn [mbind result_bind]. unfold parallax_inputs.
  rewrite Hp. unfold item, field, to_float. rewrite Hq. cbn [or_raise mbind result_bind].
  rewrite Hv. cbn [or_raise mbind result_bind]. rewrite Hx.
  cbn [or_raise mbind result_bind]. rewrite He. reflexivity.
Qed.
End InputProperties.

(** ** More on the loop over the catalogue *)

Section EngineMore.
Context {libs : PyLibs} {rnd : Random} {utils : Utils} {cat : Catalog}.

Lemma store_outcomes_events (name : string) (ss : StarSamples) (w : World) :
  ∃ evs, Forall (fun ev => star_event ev = true) evs
         ∧ w_trace (store_outcomes name ss w).2 = w_trace w ++ evs.
Proof.
  unfold store_outcomes. rewrite Eng_bind_unfold. unfold lift.
  destruct (kine_vesc ss) as [vesc|]; cbn [or_raise];
    [|exists []; rewrite app_nil_r; split; [constructor | reflexivity]].
  rewrite Eng_bind_unfold.
  destruct (count_bound vesc (kine_vgrf ss)) as [n|];
    [|exists []; rewrite app_nil_r; split; [constructor | reflexivity]].
  destruct (kine_bound_percentiles n (kine_samples_n ss)) as [[lo med] hi].
  rewrite Eng_bind_unfold. unfold entry_add_self_source.
  destruct (add_self_source name (w_catalog w)) as [source c].
  destruct (haveparallax (inputs ss));
    unfold mbind, Eng_bind, entry_add_quantity, mret, Eng_ret, emit; cbn;
    rewrite <- !app_assoc; eexists; (split; [|reflexivity]);
    repeat constructor.
Qed.

Lemma star_step_events Tm policy (oname : string) (w : World) :
  ∃ evs, Forall (fun ev => star_event ev = true) evs
         ∧ w_trace (star_step Tm policy oname w).2 = w_trace w ++ evs.
Proof.
  unfold star_step. destruct (add_entry oname (w_catalog w)) as [[name|] c].
  - rewrite Eng_bind_unfold. unfold lift. cbn.
    destruct (entries c name) as [e|]; cbn;
      [|exists []; rewrite app_nil_r; split; [constructor | reflexivity]].
    destruct (lacks_data e);
      [exists []; rewrite app_nil_r; split; [constructor | reflexivity]|].
    rewrite Eng_bind_unfold. unfold in_rnd. cbn.
    destruct (star_samples Tm policy name e (w_rng w)) as [[ss|err] st'];
      [|exists []; rewrite app_nil_r; split; [constructor | reflexivity]].
    apply (store_outcomes_events name ss
             {| w_catalog := c; w_rng := st'; w_trace := w_trace w |}).
  - exists [Warning (not_found_message oname)].
    split; [repeat constructor | reflexivity].
Qed.

Lemma star_loop_events Tm policy (keys : list string) (w : World) :
  ∃ evs, Forall (fun ev => star_event ev = true) evs
         ∧ w_trace (star_loop Tm policy keys w).2 = w_trace w ++ evs.
Proof.
  revert w. induction keys as [|oname keys IH]; intros w.
  - exists []. rewrite app_nil_r. split; [constructor | reflexivity].
  - cbn [star_loop]. rewrite Eng_bind_unfold.
    destruct (star_step_events Tm policy oname w) as (evs1 & F1 & H1).
    destruct (star_step Tm policy oname w) as [[[]|err] w1]; cbn in H1.
    + destruct (IH w1) as (evs2 & F2 & H2).
      exists (evs1 ++ evs2). rewrite H2, H1, app_assoc.
      split; [now apply Forall_app | reflexivity].
    + exists evs1. split; assumption.
Qed.

Lemma resolve_policy_events (vescmethod : string) (w : World) :
  ∃ evs, Forall (fun ev => star_event ev = true) evs
         ∧ w_trace (resolve_policy vescmethod w).2 = w_trace w ++ evs.
Proof.
  unfold resolve_policy.
  destruct (String.eqb vescmethod "galpy");
    [exists []; rewrite app_nil_r; split; [constructor | reflexivity]|].
  destruct (String.eqb vescmethod "williams2017").
  - exists []. rewrite app_nil_r. split; [constructor|].
    unfold load_chain. reflexivity.
  - exists [Warning vescmethod_message].
    split; [repeat constructor | reflexivity].
Qed.

(** X13: whatever the method and the catalogue, a run adds to the trace
    only warnings, self sources and quantities that are flagged as derived
    and stored under BOUND_PROBABILITY, VELOCITY or LUM_DIST; the entries
    are journalled exactly when the run ends without an exception, once,
    as its last call. *)
Theorem run_trace_shape (vescmethod : string) (w : World) :
  ∃ evs,
    Forall (fun ev => star_event ev = true) evs
    ∧ w_trace (do_boundprobability vescmethod w).2
      = w_trace w ++ evs
        ++ match (do_boundprobability vescmethod w).1 with
           | Ok _ => [JournalEntries]
           | Raise _ => []
           end.
Proof.
  unfold do_boundprobability. destruct T_Ok as [Tm HT].
  rewrite Eng_bind_unfold. unfold lift. rewrite HT.
  rewrite Eng_bind_unfold. unfold catalog_keys.
  rewrite Eng_bind_unfold.
  destruct (resolve_policy_events vescmethod w) as (evs0 & F0 & H0).
  destruct (resolve_policy vescmethod w) as [[policy|err] w0]; cbn in H0.
  - rewrite Eng_bind_unfold.
    destruct (star_loop_events Tm policy (entries_keys (w_catalog w)) w0)
      as (evs1 & F1 & H1).
    destruct (star_loop Tm policy _ w0) as [[[]|err] w1]; cbn in H1 |- *.
    + exists (evs0 ++ evs1). rewrite H1, H0, <- !app_assoc.
      split; [now apply Forall_app | reflexivity].
    + exists (evs0 ++ evs1). rewrite H1, H0, <- !app_assoc, app_nil_r.
      split; [now apply Forall_app | reflexivity].
  - exists evs0. cbn. rewrite app_nil_r. split; assumption.
Qed.

(** X14: a key for which [add_entry] raises is reported with one warning
    that quotes the key; nothing is written, the generator is not used, and
    the loop goes on with the remaining keys. *)
Theorem unresolved_key_warned Tm policy (oname : string) (c : catalog)
    (w : World) (keys : list string) :
  add_entry oname (w_catalog w) = (None, c) →
  star_step Tm policy oname w
  = (Ok (), emit (Warning (not_found_message oname)) (set_catalog c w))
  ∧ star_loop Tm policy (oname :: keys) w
    = star_loop Tm policy keys
        (emit (Warning (not_found_message oname)) (set_catalog c w)).
Proof.
  intros Hadd.
  assert (Hstep : star_step Tm policy oname w
    = (Ok (), emit (Warning (not_found_message oname)) (set_catalog c w)))
    by (unfold star_step; rewrite Hadd; reflexivity).
  split; [exact Hstep|]. cbn [star_loop].
  rewrite Eng_bind_unfold, Hstep. reflexivity.
Qed.

Lemma mapM_result_raise {A B} (f : A → result B) (l : list A) (e : PyError) :
  (∀ x, f x = Raise e ∨ ∃ y, f x = Ok y) →
  (∃ x, x ∈ l ∧ f x = Raise e) → mapM f l = Raise e.
Proof.
  intros Hf. induction l as [|x l IH]; intros (x0 & Hin & Hx0).
  - now apply elem_of_nil in Hin.
  - cbn. destruct (Hf x) as [->|[y Hy]]; [reflexivity|]. rewrite Hy. cbn.
    apply elem_of_cons in Hin as [->|Hin]; [congruence|].
    rewrite IH by eauto. reflexivity.
Qed.

Lemma column_short (j : nat) (chain : list (list Q)) :
  chain = [] ∨ (∃ row, chain = [row])
  ∨ (∃ row, row ∈ chain ∧ (length row ≤ j)%nat) →
  column j chain = Raise IndexError.
Proof.
  intros [->|[[row ->]|(row & Hin & Hlen)]]; [reflexivity..|]. unfold column.
  destruct chain as [|r0 [|r1 chain']]; [reflexivity..|].
  apply mapM_result_raise.
  - intros x. destruct (x !! j); cbn; eauto.
  - exists row. split; [exact Hin|]. now rewrite lookup_ge_None_2.
Qed.

(** X15: under the chain policy a table that cannot be read, that is
    empty, that has one row only (which [np.genfromtxt] reads as a
    one-dimensional array), or that has a row with fewer than seven
    columns ends the run with an exception before the loop: the catalogue,
    the generator and the trace are as they were. *)
Theorem chain_without_columns (w : World) :
  (∃ e, genfromtxt (w_catalog w) = Raise e)
  ∨ (∃ chain, genfromtxt (w_catalog w) = Ok chain
              ∧ (chain = [] ∨ (∃ row, chain = [row])
                 ∨ ∃ row, row ∈ chain ∧ (length row ≤ 6)%nat)) →
  ∃ e, do_boundprobability "williams2017" w = (Raise e, w).
Proof.
  intros H. destruct T_Ok as [Tm HT].
  assert (Hload : ∃ e, load_chain w = (Raise e, w)).
  { unfold load_chain. destruct H as [[e ->]|(chain & -> & Hshort)];
      [eauto|]. cbn [mbind result_bind].
    destruct (column 5 chain) as [V|e5]; [|eauto]. cbn [mbind result_bind].
    rewrite (column_short 6 chain Hshort). eauto. }
  destruct Hload as [e He]. exists e.
  unfold do_boundprobability. rewrite Eng_bind_unfold. unfold lift.
  rewrite HT, Eng_bind_unfold. unfold catalog_keys.
  rewrite Eng_bind_unfold.
  change (resolve_policy "williams2017") with load_chain.
  rewrite He. reflexivity.
Qed.

Lemma eqb_false_negb (b : bool) : Bool.eqb b false = negb b.
Proof. now destruct b. Qed.

(** X16: for a star sampled under a resolved policy the store step
    succeeds and makes, in this order, a self source, the bound
    probability, the escape velocity and the total velocity, followed by a
    distance in kpc exactly when the entry has a parallax.  The bound
    probability is an upper limit, and the total velocity a lower limit,
    exactly when the entry lacks a proper motion component or the radial
    velocity; the escape velocity carries no limit flag. *)
Theorem processed_star_writes Tm policy name e st ss st' (w : World) :
  policy ≠ Unresolved →
  star_samples Tm policy name e st = (Ok ss, st') →
  let limit :=
    negb (has (e PROPER_MOTION_RA) && has (e PROPER_MOTION_DEC))
    || negb (has (e VELOCITY)) in
  ∃ bp esc tot rest,
    (store_outcomes name ss w).1 = Ok ()
    ∧ w_trace (store_outcomes name ss w).2
      = w_trace w ++
          AddSelfSource name :: AddQuantity name BOUND_PROBABILITY bp
          :: AddQuantity name VELOCITY esc :: AddQuantity name VELOCITY tot
          :: rest
    ∧ q_upperlimit bp = Some limit ∧ q_lowerlimit tot = Some limit
    ∧ q_upperlimit esc = None ∧ q_lowerlimit esc = None
    ∧ q_kind esc = ["galactocentric"; "escape"]%string
    ∧ q_kind tot = ["galactocentric"; "total"]%string
    ∧ if has (e PARALLAX)
      then ∃ d, rest = [AddQuantity name LUM_DIST d]
                ∧ q_u_value d = Some "kpc"%string
      else rest = [].
Proof.
  intros Hpol Hrun limit.
  destruct (star_bound_count _ _ _ _ _ _ _ Hpol Hrun)
    as (vesc & n & Hv & _ & Hn & _).
  apply star_samples_Ok in Hrun
    as (a & ks & st1 & solar & st2 & _ & Hinp & _).
  destruct (kinematic_inputs_flags _ _ Hinp) as (Hp & Hm & Hvel).
  unfold store_outcomes. rewrite Eng_bind_unfold. unfold lift.
  rewrite Hv. cbn [or_raise]. rewrite Eng_bind_unfold, Hn.
  destruct (kine_bound_percentiles n (kine_samples_n ss)) as [[lo med] hi].
  rewrite Eng_bind_unfold. unfold entry_add_self_source.
  destruct (add_self_source name (w_catalog w)) as [source c].
  rewrite !eqb_false_negb, Hp, Hm, Hvel. fold limit.
  destruct (has (e PARALLAX));
    unfold mbind, Eng_bind, entry_add_quantity, mret, Eng_ret, emit; cbn;
    rewrite <- !app_assoc; cbn;
    do 4 eexists; (split; [reflexivity|]); (split; [reflexivity|]);
    cbn; repeat split; eauto.
Qed.

(** X17: an entry with sufficient data whose first parallax measurement
    has no symmetric error raises [KeyError]; the exception is not caught,
    so the loop ends there: the remaining keys are not looked up, nothing
    is written and nothing is logged. *)
Theorem parallax_without_error_stops_run Tm policy (oname name : string)
    (c : catalog) (e : Entry) (parallax : list Quantity) (q : Quantity)
    (v : string) (x L0 : Q) (a : Angles) (w : World) (keys : list string) :
  add_entry oname (w_catalog w) = (Some name, c) →
  entries c name = Some e → lacks_data e = false →
  sky_angles e = Ok a → prior_length_scale e 1.35 = Ok L0 →
  e PARALLAX = Some parallax → parallax !! 0%nat = Some q →
  value q = Some v → float v = Some x → e_value q = None →
  star_loop Tm policy (oname :: keys) w = (Raise KeyError, set_catalog c w).
Proof.
  intros Hadd Hent Hlack Ha HL Hp Hq Hv Hx He.
  pose proof (kinematic_inputs_parallax_KeyError e parallax q v x L0
                HL Hp Hq Hv Hx He) as Hinp.
  cbn [star_loop]. rewrite Eng_bind_unfold. unfold star_step.
  rewrite Hadd, Eng_bind_unfold. unfold lift. rewrite Hent. cbn [or_raise].
  rewrite Hlack, Eng_bind_unfold. unfold in_rnd, star_samples.
  unfold mbind at 1, Rnd_bind at 1, pure at 1. rewrite Ha.
  unfold mbind at 1, Rnd_bind at 1, pure at 1. rewrite Hinp.
  reflexivity.
Qed.
End EngineMore.

(** * Examples on the small instance *)

Section Examples.
Import Demo.

Lemma best_parameter_returns_derived_witness :
  fst <$> best_parameter derived_then_primary = Ok 0%nat
  ∧ (∃ q, derived_then_primary !! 0%nat = Some q ∧ derived q = Some true)
  ∧ (∃ q, derived_then_primary !! 1%nat = Some q ∧ derived q = None
          ∧ has (e_value q) = true).
Proof. apply best_parameter_returns_derived; reflexivity. Defined.

Lemma craft_seed_range_or_failure_witness :
  ∃ s, craft_seed "HVS1" = Ok s ∧ (0 ≤ s < 2 ^ 32)%Z
       ∧ ∀ st, random_seed s st = (Ok (), np_random_seed s).
Proof.
  apply (proj1 (craft_seed_range_or_failure "HVS1")). discriminate.
Defined.

Lemma vescsolar_sampler_deterministic_witness :
  (vescsolar_sampler [520; 530; 540] [2.5; 2.25; 2] "HVS1" 4 (rng_at 0)).1
  = (vescsolar_sampler [520; 530; 540] [2.5; 2.25; 2] "HVS1" 4 (rng_at 7)).1
  ∧ craft_seed "HVS1" = Ok (cyclic_product "HVS1" mod 2 ^ 32)%Z
  ∧ vescsolar_sampler [520; 530; 540] [2.5; 2.25; 2] "HVS1" 4 (rng_at 0)
    = vescsolar_sampler [520; 530; 540] [2.5; 2.25; 2] "HVS1" 4 (rng_at 7)
  ∧ vescsolar_sampler [520; 530; 540] [2.5; 2.25; 2] "HVS1" 4 (rng_at 0)
    = (choice_chain ← random_choice 3 4;
       vesc ← pure (take_indices [520; 530; 540] choice_chain);
       alpha ← pure (take_indices [2.5; 2.25; 2] choice_chain);
       mret (vesc, alpha))
        (np_random_seed (cyclic_product "HVS1" mod 2 ^ 32)%Z).
Proof.
  destruct (vescsolar_sampler_deterministic
              [520; 530; 540] [2.5; 2.25; 2] "HVS1" 4 (rng_at 0) (rng_at 7))
    as [H1 H2].
  split; [exact H1 | apply H2; discriminate].
Defined.

Lemma credible_interval_ordered_witness :
  let '(lower, median, upper) := kine_bound_percentiles 3 8 in
  lower <= median ∧ median <= upper.
Proof.
  apply (credible_interval_ordered 3 8).
  - intros q1 q2 a b _ _ _ H _. exact H.
  - lia.
  - lia.
Defined.

Lemma lumdist_prior_moments_witness :
  ∃ L k', lumdist_prior star_with_lumdist 1.35 3 = Ok (L, k')
          ∧ k' * L == 10 ∧ k' * L ^ 2 == 2 ^ 2.
Proof.
  apply (lumdist_prior_moments star_with_lumdist
           [measurement "10" (Some "2"%string)] 0 2 10
           (measurement "10" (Some "2"%string)) "10" 1.35 3);
    try reflexivity; intros H; discriminate H.
Defined.

(** C5, as stated: an error of 9999.5 is below the sentinel 9999.9, but the
    prior is matched to the substituted error 0.5 * 10; a distance of
    value zero, or of error zero, gives no shape at all. *)
Lemma lumdist_prior_counterexample :
  best_parameter [measurement "10" (Some "9999.5"%string)]
  = Ok (0%nat, 9999.5)
  ∧ Qlt_bool 9999.5 9999.9 = true
  ∧ (∃ L k', lumdist_prior star_with_loose_lumdist 1.35 3 = Ok (L, k')
             ∧ k' * L ^ 2 == (0.5 * 10) ^ 2
             ∧ ¬ k' * L ^ 2 == 9999.5 ^ 2)
  ∧ lumdist_prior star_with_zero_lumdist 1.35 3 = Raise ZeroDivisionError
  ∧ lumdist_prior star_with_exact_lumdist 1.35 3 = Raise NonFinite.
Proof.
  split; [reflexivity|]. split; [reflexivity|].
  split; [|split; reflexivity].
  eexists _, _. split; [reflexivity|]. split; [reflexivity|].
  intros H. vm_compute in H. discriminate H.
Defined.

Lemma no_propermotions_exact_reflex_witness :
  (∃ ss st',
     star_samples demo_T Galpy "HVS5" star_with_propermotions (rng_at 0)
     = (Ok ss, st')
     ∧ havepropermotions (inputs ss) = true
     ∧ havevelocities (inputs ss) = false
     ∧ kine_samples_n ss = 2%nat
     ∧ length (kine_samples_corrected ss) = kine_samples_n ss
     ∧ length (kine_D ss) = kine_samples_n ss
     ∧ ∀ i, (i < kine_samples_n ss)%nat →
         ∃ r d, kine_samples_corrected ss !! i = Some r
                ∧ kine_D ss !! i = Some d
                ∧ (havepropermotions (inputs ss) = false →
                   c1 r = -1 * x1 d ∧ c2 r = -1 * x2 d
                   ∧ c1 r + x1 d == 0 ∧ c2 r + x2 d == 0)
                ∧ (havevelocities (inputs ss) = false →
                   c3 r = -1 * x0 d ∧ c3 r + x0 d == 0))
  ∧ (∃ ss st',
       star_samples demo_T Galpy "HVS4" star_with_parallax_only (rng_at 0)
       = (Ok ss, st')
       ∧ havepropermotions (inputs ss) = false
       ∧ havevelocities (inputs ss) = false
       ∧ kine_samples_n ss = 2%nat
       ∧ length (kine_samples_corrected ss) = kine_samples_n ss
       ∧ length (kine_D ss) = kine_samples_n ss
       ∧ ∀ i, (i < kine_samples_n ss)%nat →
           ∃ r d, kine_samples_corrected ss !! i = Some r
                  ∧ kine_D ss !! i = Some d
                  ∧ (havepropermotions (inputs ss) = false →
                     c1 r = -1 * x1 d ∧ c2 r = -1 * x2 d
                     ∧ c1 r + x1 d == 0 ∧ c2 r + x2 d == 0)
                  ∧ (havevelocities (inputs ss) = false →
                     c3 r = -1 * x0 d ∧ c3 r + x0 d == 0)).
Proof.
  split.
  - destruct (star_samples demo_T Galpy "HVS5" star_with_propermotions
                (rng_at 0)) as [r st'] eqn:Hrun.
    assert (Hok : ∃ ss, r = Ok ss ∧ havepropermotions (inputs ss) = true
                        ∧ havevelocities (inputs ss) = false
                        ∧ kine_samples_n ss = 2%nat).
    { vm_compute in Hrun. injection Hrun as <- _. eexists.
      repeat split; reflexivity. }
    destruct Hok as (ss & -> & Hpm & Hvel & Hn). exists ss, st'.
    split; [reflexivity|]. split; [exact Hpm|]. split; [exact Hvel|].
    split; [exact Hn|].
    exact (no_propermotions_exact_reflex _ _ _ _ _ _ _ Hrun).
  - destruct (star_samples demo_T Galpy "HVS4" star_with_parallax_only
                (rng_at 0)) as [r st'] eqn:Hrun.
    assert (Hok : ∃ ss, r = Ok ss ∧ havepropermotions (inputs ss) = false
                        ∧ havevelocities (inputs ss) = false
                        ∧ kine_samples_n ss = 2%nat).
    { vm_compute in Hrun. injection Hrun as <- _. eexists.
      repeat split; reflexivity. }
    destruct Hok as (ss & -> & Hpm & Hvel & Hn). exists ss, st'.
    split; [reflexivity|]. split; [exact Hpm|]. split; [exact Hvel|].
    split; [exact Hn|].
    exact (no_propermotions_exact_reflex _ _ _ _ _ _ _ Hrun).
Defined.

Lemma chain_escape_velocity_witness :
  ∃ policy ss st',
    resolve_policy "williams2017" demo_world = (Ok policy, demo_world)
    ∧ star_samples I3 policy "HVS2" star_without_propermotion (rng_at 0)
      = (Ok ss, st')
    ∧ kine_samples_n ss = 2%nat
    ∧ ∃ chain VESCSOLAR ALPHA vesc,
        genfromtxt (w_catalog demo_world) = Ok chain
        ∧ policy = Williams2017 VESCSOLAR ALPHA
        ∧ kine_vesc ss = Some vesc ∧ length vesc = kine_samples_n ss
        ∧ ∀ i, (i < kine_samples_n ss)%nat →
            ∃ c row v a r s,
              (np_random_choice (length chain) (kine_samples_n ss)
                 (np_random_seed (cyclic_product "HVS2" mod 2 ^ 32)%Z)).1
                !! i = Some c
              ∧ chain !! c = Some row
              ∧ row !! 5%nat = Some v ∧ row !! 6%nat = Some a
              ∧ VESCSOLAR !! c = Some v ∧ ALPHA !! c = Some a
              ∧ kine_galrad ss !! i = Some r
              ∧ kine_samples_solar ss !! i = Some s
              ∧ vesc !! i = Some (v * np_power (r / s0 s) (- a / 2)).
Proof.
  exists (Williams2017 [520; 530; 540] [2.5; 2.25; 2]).
  destruct (star_samples I3 (Williams2017 [520; 530; 540] [2.5; 2.25; 2])
              "HVS2" star_without_propermotion (rng_at 0))
    as [r st'] eqn:Hrun.
  assert (Hok : ∃ ss, r = Ok ss ∧ kine_samples_n ss = 2%nat).
  { vm_compute in Hrun. injection Hrun as <- _. eexists.
    split; reflexivity. }
  destruct Hok as (ss & -> & Hn). exists ss, st'.
  split; [reflexivity|]. split; [reflexivity|]. split; [exact Hn|].
  exact (chain_escape_velocity I3 demo_world demo_world _ _ _ _ _ _
           eq_refl Hrun).
Defined.

Lemma lacking_entry_skipped_witness :
  star_step I3 Galpy "HVS1" demo_world
  = (Ok (), set_catalog demo_catalog demo_world)
  ∧ w_trace (set_catalog demo_catalog demo_world) = w_trace demo_world
  ∧ w_rng (set_catalog demo_catalog demo_world) = w_rng demo_world
  ∧ star_loop I3 Galpy ["HVS1"; "HVS2"]%string demo_world
    = star_loop I3 Galpy ["HVS2"]%string
        (set_catalog demo_catalog demo_world).
Proof.
  apply (lacking_entry_skipped I3 Galpy "HVS1" "HVS1" demo_catalog
           star_without_position demo_world ["HVS2"]%string).
  - reflexivity.
  - reflexivity.
  - left. reflexivity.
Defined.

Lemma unresolved_policy_writes_nothing_witness :
  (∃ Tm,
     do_boundprobability "nomethod" demo_world
     = (_ ← star_loop Tm Unresolved (entries_keys (w_catalog demo_world));
        catalog_journal_entries)
         (emit (Warning vescmethod_message) demo_world))
  ∧ ∃ rest,
      w_trace (do_boundprobability "nomethod" demo_world).2
      = w_trace demo_world ++ Warning vescmethod_message :: rest
      ∧ Forall (fun ev => is_write ev = false) rest.
Proof.
  apply (unresolved_policy_writes_nothing "nomethod" demo_world);
    discriminate.
Defined.

(** C3, as stated: with an unrecognised method the run is not stopped
    before the loop.  On the demo catalogue the loop logs that the first key
    was not found, passes over the second, draws the samples of the third
    (the generator has advanced) and only then ends in
    [UnboundLocalError]; on a catalogue without the third key the run
    completes and the entries are journalled. *)
Lemma unresolved_policy_counterexample :
  (let '(r, w) := do_boundprobability "nomethod" demo_world in
   r = Raise UnboundLocalError
   ∧ w_rng w = rng_at 2
   ∧ w_trace w = [Warning vescmethod_message;
                  Warning (not_found_message "HVS0")])
  ∧ (let '(r, w) :=
       do_boundprobability "nomethod"
         {| w_catalog := short_catalog; w_rng := rng_at 0;
            w_trace := [] |} in
     r = Ok ()
     ∧ w_trace w = [Warning vescmethod_message;
                    Warning (not_found_message "HVS0");
                    JournalEntries]).
Proof. vm_compute. repeat split. Defined.

Lemma best_parameter_first_minimum_witness :
  ∃ i m, best_parameter several_measurements = Ok (i, m)
         ∧ (i < length several_measurements)%nat
         ∧ [0.5; 0.1; 0.3; 9999.9; 0.1] !! i = Some m
         ∧ ∀ j x, [0.5; 0.1; 0.3; 9999.9; 0.1] !! j = Some x →
             m <= x ∧ ((j < i)%nat → m < x).
Proof.
  apply (best_parameter_first_minimum several_measurements
           [0.5; 0.1; 0.3; 9999.9; 0.1]);
    [reflexivity | discriminate | reflexivity].
Defined.

Lemma best_parameter_failures_witness :
  best_parameter [] = Raise ValueError
  ∧ best_parameter unreadable_measurements = Raise ValueError.
Proof.
  destruct (best_parameter_failures unreadable_measurements ValueError)
    as [H1 H2].
  split; [exact H1 | apply H2; reflexivity].
Defined.

Lemma craft_seed_even_names_collide_witness :
  craft_seed "Gaia DR2 1 2 3" = Ok 0%Z ∧ craft_seed "SDSS J0 1 2 3" = Ok 0%Z
  ∧ vescsolar_sampler [520; 530; 540] [2.5; 2.25; 2] "Gaia DR2 1 2 3" 4
      (rng_at 0)
    = vescsolar_sampler [520; 530; 540] [2.5; 2.25; 2] "SDSS J0 1 2 3" 4
        (rng_at 7).
Proof.
  apply craft_seed_even_names_collide; try discriminate.
  - exists 39096702433051200000%Z. reflexivity.
  - exists 276103803948134400%Z. reflexivity.
Defined.

Lemma frame_transform_rotation_witness :
  orthogonal demo_T ∧ mat3_det demo_T == 1
  ∧ ∀ a, mat3_det (T_1 a) == -1 ∧ mat3_det (T_2 a) == 1
         ∧ mat3_det (T_3 a) == -1.
Proof.
  apply (frame_transform_rotation (libs := libs)).
  - intros x. vm_compute. reflexivity.
  - reflexivity.
Defined.

Lemma solar_reflex_keeps_speed_witness :
  ∃ ss st',
    star_samples demo_T Galpy "HVS2" star_without_propermotion (rng_at 0)
    = (Ok ss, st')
    ∧ ∀ i, (i < kine_samples_n ss)%nat →
        ∃ d s, kine_D ss !! i = Some d ∧ kine_samples_solar ss !! i = Some s
               ∧ vec3_norm2 d == s2 s ^ 2 + s3 s ^ 2 + s4 s ^ 2.
Proof.
  destruct (star_samples demo_T Galpy "HVS2" star_without_propermotion
              (rng_at 0)) as [r st'] eqn:Hrun.
  assert (Hok : ∃ ss, r = Ok ss).
  { vm_compute in Hrun. injection Hrun as <- _. eexists. reflexivity. }
  destruct Hok as (ss & ->). exists ss, st'. split; [reflexivity|].
  refine (solar_reflex_keeps_speed _ demo_T _ _ _ _ _ _ eq_refl Hrun).
  intros x. vm_compute. reflexivity.
Defined.

Lemma star_without_velocities_at_rest_witness :
  ∃ ss st',
    star_samples demo_T Galpy "HVS4" star_with_parallax_only (rng_at 0)
    = (Ok ss, st')
    ∧ havepropermotions (inputs ss) = false
    ∧ havevelocities (inputs ss) = false
    ∧ ∀ i, (i < kine_samples_n ss)%nat →
        ∃ q, kine_vgrf ss !! i = Some (np_sqrt q) ∧ q == 0.
Proof.
  destruct (star_samples demo_T Galpy "HVS4" star_with_parallax_only
              (rng_at 0)) as [r st'] eqn:Hrun.
  assert (Hok : ∃ ss, r = Ok ss ∧ havepropermotions (inputs ss) = false
                      ∧ havevelocities (inputs ss) = false).
  { vm_compute in Hrun. injection Hrun as <- _. eexists.
    repeat split; reflexivity. }
  destruct Hok as (ss & -> & Hpm & Hvel). exists ss, st'.
  split; [reflexivity|]. split; [exact Hpm|]. split; [exact Hvel|].
  refine (star_without_velocities_at_rest _ demo_T _ _ _ _ _ _ eq_refl
            Hrun Hpm Hvel).
  intros x. vm_compute. reflexivity.
Defined.

Lemma galpy_escape_velocity_witness :
  ∃ ss st',
    star_samples I3 Galpy "HVS2" star_without_propermotion (rng_at 0)
    = (Ok ss, st')
    ∧ ∃ vesc,
        kine_vesc ss = Some vesc ∧ length vesc = kine_samples_n ss
        ∧ (∀ i, (i < kine_samples_n ss)%nat →
             ∃ r s, kine_galrad ss !! i = Some r
                    ∧ kine_samples_solar ss !! i = Some s
                    ∧ vesc !! i = Some (galpy_vesc r * s1 s))
        ∧ ∃ samples st1 solar,
            kinematic_sampler "HVS2" (kine_values (inputs ss))
              (kine_errors (inputs ss)) (kine_corr (inputs ss))
              (kine_L (inputs ss)) (kine_k (inputs ss)) (rng_at 0)
            = (Ok samples, st1)
            ∧ solarmotion_sampler "HVS2" (length samples) st1
              = (Ok solar, st').
Proof.
  destruct (star_samples I3 Galpy "HVS2" star_without_propermotion
              (rng_at 0)) as [r st'] eqn:Hrun.
  assert (Hok : ∃ ss, r = Ok ss).
  { vm_compute in Hrun. injection Hrun as <- _. eexists. reflexivity. }
  destruct Hok as (ss & ->). exists ss, st'. split; [reflexivity|].
  exact (galpy_escape_velocity _ _ _ _ _ _ Hrun).
Defined.

Lemma bound_count_within_samples_witness :
  ∃ ss st',
    star_samples I3 Galpy "HVS2" star_without_propermotion (rng_at 0)
    = (Ok ss, st')
    ∧ ∃ vesc n,
        kine_vesc ss = Some vesc
        ∧ count_bound vesc (kine_vgrf ss) = Ok n
        ∧ (n ≤ kine_samples_n ss)%nat
        ∧ kine_bound_percentiles n (kine_samples_n ss)
          = (beta_ppf (confidenceintervalcoverage / 2)
               (inject_Z (Z.of_nat n) + 0.5)
               (inject_Z (Z.of_nat (kine_samples_n ss) - Z.of_nat n) + 0.5),
             beta_ppf 0.5 (inject_Z (Z.of_nat n) + 0.5)
               (inject_Z (Z.of_nat (kine_samples_n ss) - Z.of_nat n) + 0.5),
             beta_ppf (1 - confidenceintervalcoverage / 2)
               (inject_Z (Z.of_nat n) + 0.5)
               (inject_Z (Z.of_nat (kine_samples_n ss) - Z.of_nat n) + 0.5))
        ∧ 0.5 <= inject_Z (Z.of_nat n) + 0.5
        ∧ 0.5 <= inject_Z (Z.of_nat (kine_samples_n ss) - Z.of_nat n) + 0.5
        ∧ inject_Z (Z.of_nat n) + 0.5
          + (inject_Z (Z.of_nat (kine_samples_n ss) - Z.of_nat n) + 0.5)
          == inject_Z (Z.of_nat (kine_samples_n ss)) + 1.
Proof.
  destruct (star_samples I3 Galpy "HVS2" star_without_propermotion
              (rng_at 0)) as [r st'] eqn:Hrun.
  assert (Hok : ∃ ss, r = Ok ss).
  { vm_compute in Hrun. injection Hrun as <- _. eexists. reflexivity. }
  destruct Hok as (ss & ->). exists ss, st'. split; [reflexivity|].
  refine (bound_count_within_samples _ _ _ _ _ _ _ _ Hrun). discriminate.
Defined.

Lemma kinematic_inputs_correlations_witness :
  ∃ inp, kinematic_inputs star_with_propermotions = Ok inp
         ∧ ∃ c12, kine_corr inp = corr_shape c12
                  ∧ (havepropermotions inp = false → c12 = 0).
Proof.
  destruct (kinematic_inputs star_with_propermotions) as [inp|] eqn:Hrun;
    [|vm_compute in Hrun; discriminate Hrun].
  exists inp. split; [reflexivity|].
  exact (kinematic_inputs_correlations _ _ Hrun).
Defined.

Lemma kinematic_inputs_missing_data_witness :
  ∃ inp,
    kinematic_inputs star_without_propermotion = Ok inp
    ∧ haveparallax inp = has (star_without_propermotion PARALLAX)
    ∧ havepropermotions inp
      = has (star_without_propermotion PROPER_MOTION_RA)
        && has (star_without_propermotion PROPER_MOTION_DEC)
    ∧ havevelocities inp = has (star_without_propermotion VELOCITY)
    ∧ ∃ v0 v1 v2 v3 e0 e1 e2 e3,
        kine_values inp = [v0; v1; v2; v3]
        ∧ kine_errors inp = [e0; e1; e2; e3]
        ∧ (haveparallax inp = false → v0 = 0 ∧ e0 = 9999.9)
        ∧ (havepropermotions inp = false →
           v1 = 0 ∧ v2 = 0 ∧ e1 = 9999.9 ∧ e2 = 9999.9)
        ∧ (havevelocities inp = false → v3 = 0 ∧ e3 = 9999.9).
Proof.
  destruct (kinematic_inputs star_without_propermotion) as [inp|] eqn:Hrun;
    [|vm_compute in Hrun; discriminate Hrun].
  exists inp. split; [reflexivity|].
  exact (kinematic_inputs_missing_data _ _ Hrun).
Defined.

Lemma velocity_error_substitution_witness :
  ∃ inp,
    kinematic_inputs star_with_bare_velocity = Ok inp
    ∧ ∃ q v v3,
        [measurement "-300" None] !! 0%nat = Some q
        ∧ value q = Some v ∧ float v = Some v3
        ∧ kine_values inp !! 3%nat = Some v3
        ∧ kine_errors inp !! 3%nat
          = Some (if Qlt_bool 9999.9 9999 then 9999.9 else 0.5 * v3).
Proof.
  destruct (kinematic_inputs star_with_bare_velocity) as [inp|] eqn:Hrun;
    [|vm_compute in Hrun; discriminate Hrun].
  exists inp. split; [reflexivity|].
  exact (velocity_error_substitution star_with_bare_velocity inp
           [measurement "-300" None] 0 9999.9 Hrun eq_refl eq_refl).
Defined.

Lemma propermotion_pairing_witness :
  ∃ inp,
    kinematic_inputs star_with_propermotions = Ok inp
    ∧ ∃ qra qdec vra vdec v1 v2,
        [measurement "10.0" (Some "0.3"%string)] !! 0%nat = Some qra
        ∧ [measurement "-5.0" None] !! 0%nat = Some qdec
        ∧ value qra = Some vra ∧ float vra = Some v1
        ∧ value qdec = Some vdec ∧ float vdec = Some v2
        ∧ kine_values inp !! 1%nat = Some v1
        ∧ kine_values inp !! 2%nat = Some v2
        ∧ match e_value qra, e_value qdec with
          | Some era, Some edec =>
              ∃ e1 e2, float era = Some e1 ∧ float edec = Some e2
                       ∧ kine_errors inp !! 1%nat = Some e1
                       ∧ kine_errors inp !! 2%nat = Some e2
          | _, _ =>
              kine_errors inp !! 1%nat = Some (0.5 * v1)
              ∧ kine_errors inp !! 2%nat = Some (0.5 * v2)
          end.
Proof.
  destruct (kinematic_inputs star_with_propermotions) as [inp|] eqn:Hrun;
    [|vm_compute in Hrun; discriminate Hrun].
  exists inp. split; [reflexivity|].
  exact (propermotion_pairing star_with_propermotions inp
           [measurement "10.0" (Some "0.3"%string)]
           [measurement "-5.0" None] 0 0.3 Hrun eq_refl eq_refl eq_refl).
Defined.

Lemma unresolved_key_warned_witness :
  star_step I3 Galpy "HVS0" demo_world
  = (Ok (), emit (Warning (not_found_message "HVS0"))
              (set_catalog demo_catalog demo_world))
  ∧ star_loop I3 Galpy ["HVS0"; "HVS1"]%string demo_world
    = star_loop I3 Galpy ["HVS1"]%string
        (emit (Warning (not_found_message "HVS0"))
           (set_catalog demo_catalog demo_world)).
Proof.
  apply (unresolved_key_warned I3 Galpy "HVS0" demo_catalog demo_world
           ["HVS1"]%string).
  reflexivity.
Defined.

Lemma chain_without_columns_witness :
  (∃ e, do_boundprobability "williams2017" narrow_world
        = (Raise e, narrow_world))
  ∧ (∃ e, do_boundprobability "williams2017" single_row_world
          = (Raise e, single_row_world)).
Proof.
  split; apply chain_without_columns; right.
  - exists [[1; 2; 3]; [4; 5; 6]].
    split; [reflexivity|]. right. right. exists [1; 2; 3].
    split; [left | cbn; lia].
  - exists [[0; 0; 0; 0; 0; 520; 2.5]].
    split; [reflexivity|]. right. left. eexists. reflexivity.
Defined.

Lemma processed_star_writes_witness :
  ∃ ss st',
    star_samples I3 Galpy "HVS2" star_without_propermotion (rng_at 0)
    = (Ok ss, st')
    ∧ ∃ bp esc tot rest,
        (store_outcomes "HVS2" ss demo_world).1 = Ok ()
        ∧ w_trace (store_outcomes "HVS2" ss demo_world).2
          = w_trace demo_world ++
              AddSelfSource "HVS2" :: AddQuantity "HVS2" BOUND_PROBABILITY bp
              :: AddQuantity "HVS2" VELOCITY esc
              :: AddQuantity "HVS2" VELOCITY tot :: rest
        ∧ q_upperlimit bp = Some true ∧ q_lowerlimit tot = Some true
        ∧ q_upperlimit esc = None ∧ q_lowerlimit esc = None
        ∧ q_kind esc = ["galactocentric"; "escape"]%string
        ∧ q_kind tot = ["galactocentric"; "total"]%string
        ∧ ∃ d, rest = [AddQuantity "HVS2" LUM_DIST d]
               ∧ q_u_value d = Some "kpc"%string.
Proof.
  destruct (star_samples I3 Galpy "HVS2" star_without_propermotion
              (rng_at 0)) as [r st'] eqn:Hrun.
  assert (Hok : ∃ ss, r = Ok ss).
  { vm_compute in Hrun. injection Hrun as <- _. eexists. reflexivity. }
  destruct Hok as (ss & ->). exists ss, st'. split; [reflexivity|].
  refine (processed_star_writes I3 Galpy "HVS2" star_without_propermotion
            _ _ _ demo_world _ Hrun).
  discriminate.
Defined.

Lemma parallax_without_error_stops_run_witness :
  star_loop I3 Galpy ["HVS3"; "HVS2"]%string bare_world
  = (Raise KeyError, set_catalog bare_catalog bare_world).
Proof.
  apply (parallax_without_error_stops_run I3 Galpy "HVS3" "HVS3"
           bare_catalog star_with_bare_parallax
           [measurement "5.0" None] (measurement "5.0" None) "5.0" 5.0 1.35
           {| a_ra := 1; a_dec := 0; a_l := 0; a_b := 0 |} bare_world
           ["HVS2"]%string); reflexivity.
Defined.

End Examples.
